(** * vulhub-backend: the in-process cache, the cache-aside facade, the rate
    limiter, the token blacklist and the leaderboard query.

    A shallow embedding of
      - adapters/cache/memory-cache.service.ts   (MemoryCacheService)
      - common/services/cache.service.ts         (CacheService)
      - common/guards/rate-limit.guard.ts        (RateLimitGuard)
      - common/services/token-blacklist.service.ts (TokenBlacklistService)
      - modules/leaderboards/infrastructure/leaderboards.repository.ts
    followed by the properties proved about them.

    Conventions.  Time is [Date.now()] in milliseconds, a [Z]; every cache
    primitive takes the reading of the clock it makes as its first argument.
    A JavaScript [number] that holds a counter, a TTL or a timestamp is a
    [Z] (the code never leaves the exactly representable integers on such
    values); [NaN] is [None] where it can arise.  A thrown exception is the
    [Err] branch of [Result]. *)

From Stdlib Require Import ZArith List String Ascii Bool Lia.
From Stdlib Require Import DecimalString DecimalZ.
From Stdlib Require Import QArith Sorting.Sorted Sorting.Permutation.
Import ListNotations.

Local Open Scope Z_scope.
Local Open Scope string_scope.

(* ================================================================== *)
(** ** JavaScript strings and numbers *)

Module Js.

(** [!s] is false for a non-empty string: a string is truthy unless empty. *)
Definition truthy_string (s : string) : bool :=
  match s with EmptyString => false | String _ _ => true end.

(** A [string | null] value is truthy when it is a non-empty string. *)
Definition truthy (v : option string) : bool :=
  match v with Some s => truthy_string s | None => false end.

(** A number is truthy unless it is [0] (or [NaN]). *)
Definition truthy_num (n : Z) : bool := negb (n =? 0)%Z.

(** White space that [parseInt] skips (the ASCII part of it). *)
Definition is_space (c : ascii) : bool :=
  let n := nat_of_ascii c in
  (Nat.eqb n 32 || Nat.eqb n 9 || Nat.eqb n 10 || Nat.eqb n 11
   || Nat.eqb n 12 || Nat.eqb n 13)%bool.

Fixpoint skip_spaces (s : string) : string :=
  match s with
  | String c r => if is_space c then skip_spaces r else s
  | EmptyString => s
  end.

(** The longest prefix of decimal digits of [s], as a decimal numeral. *)
Fixpoint decimal_prefix (s : string) : Decimal.uint :=
  match s with
  | String c r =>
      match c with
      | "0" => Decimal.D0 (decimal_prefix r)
      | "1" => Decimal.D1 (decimal_prefix r)
      | "2" => Decimal.D2 (decimal_prefix r)
      | "3" => Decimal.D3 (decimal_prefix r)
      | "4" => Decimal.D4 (decimal_prefix r)
      | "5" => Decimal.D5 (decimal_prefix r)
      | "6" => Decimal.D6 (decimal_prefix r)
      | "7" => Decimal.D7 (decimal_prefix r)
      | "8" => Decimal.D8 (decimal_prefix r)
      | "9" => Decimal.D9 (decimal_prefix r)
      | _ => Decimal.Nil
      end%char
  | EmptyString => Decimal.Nil
  end.

Definition hex_digit (c : ascii) : option Z :=
  let n := Z.of_nat (nat_of_ascii c) in
  if ((48 <=? n) && (n <=? 57))%Z then Some (n - 48)
  else if ((97 <=? n) && (n <=? 102))%Z then Some (n - 87)
  else if ((65 <=? n) && (n <=? 70))%Z then Some (n - 55)
  else None.

(** The value of the longest prefix of hexadecimal digits, [None] when
    there is none. *)
Fixpoint hex_prefix (s : string) (acc : option Z) : option Z :=
  match s with
  | String c r =>
      match hex_digit c with
      | Some d =>
          hex_prefix r (Some (16 * match acc with Some a => a | None => 0 end + d))
      | None => acc
      end
  | EmptyString => acc
  end.

(** The digits of [parseInt] once white space and sign are gone: a
    [0x]/[0X] prefix selects radix 16, otherwise radix 10. [None] is
    [NaN] (no digit at all). *)
Definition parse_magnitude (s : string) : option Z :=
  match s with
  | String "0" (String "x" r) | String "0" (String "X" r) => hex_prefix r None
  | _ =>
      match decimal_prefix s with
      | Decimal.Nil => None
      | d => Some (Z.of_uint d)
      end
  end.

(** [parseInt(s)] with no radix argument. *)
Definition parseInt (s : string) : option Z :=
  match skip_spaces s with
  | String "-" r => option_map Z.opp (parse_magnitude r)
  | String "+" r => parse_magnitude r
  | r => parse_magnitude r
  end.

(** [parseInt(s) || 0]: [NaN] and [0] are both falsy. *)
Definition parseInt_or_0 (s : string) : Z :=
  match parseInt s with Some n => n | None => 0 end.

(** [n.toString()] for an integer. *)
Definition toString (n : Z) : string := NilZero.string_of_int (Z.to_int n).

End Js.

(* ================================================================== *)
(** ** The JavaScript [Map]: keys in insertion order *)

Module JsMap.
Section WithValue.
Context {V : Type}.

(** Entries in insertion order, one per key. *)
Definition t := list (string * V).

Fixpoint get (k : string) (m : t) : option V :=
  match m with
  | [] => None
  | (k', v) :: r => if String.eqb k k' then Some v else get k r
  end.

Definition has (k : string) (m : t) : bool :=
  match get k m with Some _ => true | None => false end.

(** [m.set(k, v)]: an existing key keeps its place, a new key goes last. *)
Fixpoint set (k : string) (v : V) (m : t) : t :=
  match m with
  | [] => [(k, v)]
  | (k', v') :: r =>
      if String.eqb k k' then (k, v) :: r else (k', v') :: set k v r
  end.

Fixpoint delete (k : string) (m : t) : t :=
  match m with
  | [] => []
  | (k', v') :: r =>
      if String.eqb k k' then delete k r else (k', v') :: delete k r
  end.

Definition size (m : t) : nat := List.length m.

(** [m.keys().next().value]: the oldest key, [undefined] on an empty map. *)
Definition first_key (m : t) : option string :=
  match m with [] => None | (k, _) :: _ => Some k end.

Definition keys (m : t) : list string := map fst m.
End WithValue.
Arguments t : clear implicits.
End JsMap.

(* ================================================================== *)
(** ** adapters/cache/memory-cache.service.ts *)

Record CacheEntry := mkEntry { value : string; expiresAt : Z }.

Module MemoryCacheService.

(** The service object: its [cache] map and its [maxSize] field. *)
Record t := mk { cache : JsMap.t CacheEntry; maxSize : nat }.

(** [private readonly maxSize = 10000]. *)
Definition default_maxSize : nat := Z.to_nat 10000.

Definition create : t := mk [] default_maxSize.

Definition with_cache (s : t) (c : JsMap.t CacheEntry) : t := mk c (maxSize s).

(** [entry.expiresAt && Date.now() > entry.expiresAt]. *)
Definition expired (now : Z) (e : CacheEntry) : bool :=
  Js.truthy_num (expiresAt e) && (now >? expiresAt e)%Z.

(** [!entry.expiresAt || Date.now() <= entry.expiresAt]. *)
Definition live (now : Z) (e : CacheEntry) : bool :=
  negb (Js.truthy_num (expiresAt e)) || (now <=? expiresAt e)%Z.

Definition get (now : Z) (key : string) (s : t) : option string * t :=
  match JsMap.get key (cache s) with
  | None => (None, s)
  | Some entry =>
      if expired now entry
      then (None, with_cache s (JsMap.delete key (cache s)))
      else (Some (value entry), s)
  end.

(** The map after the capacity check of [set]. *)
Definition enforce_max_size (key : string) (s : t) : JsMap.t CacheEntry :=
  if (maxSize s <=? JsMap.size (cache s))%nat && negb (JsMap.has key (cache s))
  then match JsMap.first_key (cache s) with
       | Some firstKey =>
           if Js.truthy_string firstKey
           then JsMap.delete firstKey (cache s)
           else cache s
       | None => cache s
       end
  else cache s.

(** [ttl ? Date.now() + ttl * 1000 : 0]; an omitted [ttl] is [None]. *)
Definition expiry_of (now : Z) (ttl : option Z) : Z :=
  match ttl with
  | Some n => if Js.truthy_num n then now + n * 1000 else 0
  | None => 0
  end.

Definition set (now : Z) (key value : string) (ttl : option Z) (s : t) : t :=
  with_cache s
    (JsMap.set key (mkEntry value (expiry_of now ttl)) (enforce_max_size key s)).

Definition setex (now : Z) (key : string) (ttl : Z) (value : string) (s : t) : t :=
  set now key value (Some ttl) s.

Definition del (key : string) (s : t) : Z * t :=
  if JsMap.has key (cache s)
  then (1, with_cache s (JsMap.delete key (cache s)))
  else (0, s).

Fixpoint delMultiple (keys : list string) (s : t) : Z * t :=
  match keys with
  | [] => (0, s)
  | key :: rest =>
      let '(d, s1) := del key s in
      let '(n, s2) := delMultiple rest s1 in
      (d + n, s2)
  end.

Definition exists_ (now : Z) (key : string) (s : t) : bool * t :=
  match JsMap.get key (cache s) with
  | None => (false, s)
  | Some entry =>
      if expired now entry
      then (false, with_cache s (JsMap.delete key (cache s)))
      else (true, s)
  end.

Definition expire (now : Z) (key : string) (ttl : Z) (s : t) : bool * t :=
  match JsMap.get key (cache s) with
  | None => (false, s)
  | Some entry =>
      (true, with_cache s
               (JsMap.set key (mkEntry (value entry) (now + ttl * 1000)) (cache s)))
  end.

Definition ttl (now : Z) (key : string) (s : t) : Z :=
  match JsMap.get key (cache s) with
  | None => -1
  | Some entry =>
      if negb (Js.truthy_num (expiresAt entry)) then -1
      else
        let remaining := (expiresAt entry - now) / 1000 in
        if (remaining >? 0)%Z then remaining else -2
  end.

(** The counter value [incr] and [decr] start from. *)
Definition currentValue (now : Z) (entry : option CacheEntry) : Z :=
  match entry with
  | Some e => if live now e then Js.parseInt_or_0 (value e) else 0
  | None => 0
  end.

(** [entry?.expiresAt || 0]. *)
Definition kept_expiry (entry : option CacheEntry) : Z :=
  match entry with Some e => expiresAt e | None => 0 end.

Definition incr (now : Z) (key : string) (s : t) : Z * t :=
  let entry := JsMap.get key (cache s) in
  let newValue := currentValue now entry + 1 in
  (newValue,
   with_cache s
     (JsMap.set key (mkEntry (Js.toString newValue) (kept_expiry entry)) (cache s))).

Definition decr (now : Z) (key : string) (s : t) : Z * t :=
  let entry := JsMap.get key (cache s) in
  let newValue := Z.max 0 (currentValue now entry - 1) in
  (newValue,
   with_cache s
     (JsMap.set key (mkEntry (Js.toString newValue) (kept_expiry entry)) (cache s))).

(** The periodic sweep. *)
Definition cleanupExpired (now : Z) (s : t) : t :=
  with_cache s (filter (fun kv => negb (expired now (snd kv))) (cache s)).

End MemoryCacheService.

(* ================================================================== *)
(** ** Exceptions and the cache backend as the services see it *)

(** The body of the 429 response built by the rate limiter (its [resetTime],
    a formatted date, is left out). *)
Record RateLimitBody := mkBody {
  success : bool;
  message : string;
  retryAfter : Z;
  limit : Z;
  remaining : Z;
  statusCode : Z
}.

(** A thrown value: an [HttpException] or anything else. *)
Inductive exn :=
| Error (msg : string)
| HttpException (body : RateLimitBody) (status : Z).

Inductive Result (A : Type) :=
| Ok (a : A)
| Err (e : exn).
Arguments Ok {A} a.
Arguments Err {A} e.

(** The services reach the cache through an injected [cacheService]; each of
    its methods returns or throws.  [S] is the state of the backend. *)
Class CacheBackend (S : Type) := {
  backend_get : Z -> string -> S -> Result (option string) * S;
  backend_setex : Z -> string -> Z -> string -> S -> Result unit * S;
  backend_del : string -> S -> Result Z * S;
  backend_exists : Z -> string -> S -> Result bool * S;
  backend_ttl : Z -> string -> S -> Result Z * S;
  backend_incr : Z -> string -> S -> Result Z * S
}.

(** The backend of the repository: the in-memory store, which never throws. *)
#[export] Instance Memory : CacheBackend MemoryCacheService.t := {
  backend_get now key s :=
    let '(v, s') := MemoryCacheService.get now key s in (Ok v, s');
  backend_setex now key ttl value s :=
    (Ok tt, MemoryCacheService.setex now key ttl value s);
  backend_del key s :=
    let '(n, s') := MemoryCacheService.del key s in (Ok n, s');
  backend_exists now key s :=
    let '(b, s') := MemoryCacheService.exists_ now key s in (Ok b, s');
  backend_ttl now key s := (Ok (MemoryCacheService.ttl now key s), s);
  backend_incr now key s :=
    let '(n, s') := MemoryCacheService.incr now key s in (Ok n, s')
}.

(** A backend that is down: every call throws and leaves the state alone. *)
Definition Unavailable (S : Type) (e : exn) : CacheBackend S := {|
  backend_get _ _ s := (Err e, s);
  backend_setex _ _ _ _ s := (Err e, s);
  backend_del _ s := (Err e, s);
  backend_exists _ _ s := (Err e, s);
  backend_ttl _ _ s := (Err e, s);
  backend_incr _ _ s := (Err e, s)
|}.

(* ================================================================== *)
(** ** common/services/cache.service.ts *)

(** The values that go through the facade, with [JSON.stringify] and
    [JSON.parse] on them.  [JSON_parse] is [None] where [JSON.parse] throws
    a [SyntaxError].  [js_string] is a string as a value and [as_string] the
    cast [value as string] of the unserialized mode, which the type checker
    only admits at strings. *)
Class JSON (V : Type) := {
  js_null : V;
  is_null : V -> bool;
  JSON_stringify : V -> string;
  JSON_parse : string -> option V;
  js_string : string -> V;
  as_string : V -> string
}.

(** What the proofs use of [JSON]: [null] is recognised, a value that was
    serialized parses back to itself, and no value serializes to the empty
    string. *)
Class JSONLaws (V : Type) {json : JSON V} : Prop := {
  is_null_spec : forall v : V, is_null v = true <-> v = js_null;
  parse_stringify : forall v : V, JSON_parse (JSON_stringify v) = Some v;
  stringify_truthy : forall v : V, Js.truthy_string (JSON_stringify v) = true
}.

Record CacheOptions := mkOptions {
  ttl : option Z;
  prefix : option string;
  serialize : option bool
}.

(** [options = {}]. *)
Definition no_options : CacheOptions := mkOptions None None None.

(** A factory is an effectful thunk: [factory n] is what its invocation
    number [n] (counting from 0) returns or throws. *)
Definition Factory (V : Type) := nat -> Result V.

Module CacheService.
Section Facade.
Context {S : Type} {backend : CacheBackend S} {V : Type} {json : JSON V}.

Definition defaultTTL : Z := 3600.

Definition buildKey (key : string) (prefix : option string) : string :=
  match prefix with
  | Some p => if Js.truthy_string p then p ++ ":" ++ key else key
  | None => key
  end.

(** [options.serialize !== false]. *)
Definition serializing (options : CacheOptions) : bool :=
  match serialize options with Some false => false | _ => true end.

(** [get<T>]: the value, or [js_null] for [null]. *)
Definition get (now : Z) (key : string) (options : CacheOptions) (s : S)
  : V * S :=
  let fullKey := buildKey key (prefix options) in
  match backend_get now fullKey s with
  | (Err _, s1) => (js_null, s1)
  | (Ok v, s1) =>
      match v with
      | None => (js_null, s1)
      | Some str =>
          if negb (Js.truthy_string str) then (js_null, s1)
          else if serializing options
               then match JSON_parse str with
                    | Some parsed => (parsed, s1)
                    | None => (js_null, s1)
                    end
               else (js_string str, s1)
      end
  end.

(** [options.ttl || this.defaultTTL]. *)
Definition ttl_of (options : CacheOptions) : Z :=
  match ttl options with
  | Some n => if Js.truthy_num n then n else defaultTTL
  | None => defaultTTL
  end.

Definition set (now : Z) (key : string) (v : V) (options : CacheOptions)
  (s : S) : bool * S :=
  let fullKey := buildKey key (prefix options) in
  let serializedValue :=
    if serializing options then JSON_stringify v else as_string v in
  match backend_setex now fullKey (ttl_of options) serializedValue s with
  | (Ok _, s1) => (true, s1)
  | (Err _, s1) => (false, s1)
  end.

Definition del (key : string) (options : CacheOptions) (s : S) : bool * S :=
  match backend_del (buildKey key (prefix options)) s with
  | (Ok _, s1) => (true, s1)
  | (Err _, s1) => (false, s1)
  end.

Definition exists_ (now : Z) (key : string) (options : CacheOptions) (s : S)
  : bool * S :=
  match backend_exists now (buildKey key (prefix options)) s with
  | (Ok b, s1) => (b, s1)
  | (Err _, s1) => (false, s1)
  end.

(** [getOrSet].  [calls] counts the invocations of [factory] so far; the
    clock is read at [t_get] by the lookup and at [t_set], after the
    factory has answered, by the store.  [get] and [set] catch their own
    errors, so the [catch] of [getOrSet] is entered exactly when the
    factory throws. *)
Definition getOrSet (t_get t_set : Z) (key : string) (factory : Factory V)
  (options : CacheOptions) (calls : nat) (s : S) : Result V * nat * S :=
  let '(cached, s1) := get t_get key options s in
  if negb (is_null cached) then (Ok cached, calls, s1)
  else
    match factory calls with
    | Ok v =>
        let '(_, s2) := set t_set key v options s1 in
        (Ok v, Datatypes.S calls, s2)
    | Err _ =>
        (factory (Datatypes.S calls), Datatypes.S (Datatypes.S calls), s1)
    end.

End Facade.
End CacheService.

(* ================================================================== *)
(** ** common/guards/rate-limit.guard.ts *)

Record RateLimit := mkLimit { max : Z; window : Z }.

(** The rate-limit headers set on the response ([X-RateLimit-Reset], a
    formatted date, is left out).  [hdr_remaining] is [None] for [NaN]. *)
Record RateLimitHeaders := mkHeaders {
  hdr_limit : Z;
  hdr_remaining : option Z;
  hdr_window : Z
}.

Module RateLimitGuard.

(** [s.includes(needle)]. *)
Fixpoint includes (needle s : string) : bool :=
  if String.prefix needle s then true
  else match s with
       | String _ r => includes needle r
       | EmptyString => false
       end.

Definition getRateLimit (isDevelopment : bool) (endpoint method : string)
  (userId : option string) : RateLimit :=
  let isAuthenticated := Js.truthy userId in
  if includes "/auth/login" endpoint || includes "/auth/register" endpoint
  then if isDevelopment
       then mkLimit (if isAuthenticated then 20 else 50) 900
       else mkLimit (if isAuthenticated then 10 else 5) 900
  else if includes "/auth/reset" endpoint || includes "/auth/forgot" endpoint
  then if isDevelopment then mkLimit 10 3600 else mkLimit 3 3600
  else if includes "/upload" endpoint
          || (String.eqb method "POST" && includes "/files" endpoint)
  then if isDevelopment then mkLimit 50 3600 else mkLimit 10 3600
  else if String.eqb method "POST" || String.eqb method "PUT"
          || String.eqb method "DELETE"
  then if isDevelopment
       then mkLimit (if isAuthenticated then 500 else 200) 3600
       else mkLimit (if isAuthenticated then 100 else 50) 3600
  else if isDevelopment
       then mkLimit (if isAuthenticated then 2000 else 1000) 3600
       else mkLimit (if isAuthenticated then 500 else 200) 3600.

(** [Math.max(0, limits.max - currentCount - 1)]; [NaN] stays [NaN]. *)
Definition setRateLimitHeaders (currentCount : option Z) (limits : RateLimit)
  : RateLimitHeaders :=
  mkHeaders (max limits)
            (option_map (fun c => Z.max 0 (max limits - c - 1)) currentCount)
            (window limits).

(** [`rate_limit:${identifier}:${endpoint}`] with
    [identifier = userId || ip]. *)
Definition identifier (userId : option string) (ip : string) : string :=
  match userId with
  | Some u => if Js.truthy_string u then u else ip
  | None => ip
  end.

Definition rate_key (userId : option string) (ip endpoint : string) : string :=
  "rate_limit:" ++ identifier userId ip ++ ":" ++ endpoint.

Definition too_many : Z := 429.

Section Guard.
Context {S : Type} {backend : CacheBackend S}.

Definition getTTL (now : Z) (key : string) (s : S) : Z * S :=
  match backend_ttl now key s with
  | (Ok t, s1) => (if (t >? 0)%Z then t else 0, s1)
  | (Err _, s1) => (0, s1)
  end.

(** [current ? parseInt(current) : 0]; [None] is [NaN]. *)
Definition count_of (current : option string) : option Z :=
  match current with
  | Some str => if Js.truthy_string str then Js.parseInt str else Some 0
  | None => Some 0
  end.

(** [count >= limits.max], false on [NaN]. *)
Definition over_limit (count : option Z) (limits : RateLimit) : bool :=
  match count with Some c => (max limits <=? c)%Z | None => false end.

(** [count === 0]. *)
Definition is_zero (count : option Z) : bool :=
  match count with Some c => (c =? 0)%Z | None => false end.

Definition rejection (limits : RateLimit) (retry : Z) : exn :=
  HttpException
    (mkBody false
       ("Rate limit exceeded. Try again in " ++ Js.toString retry ++ " seconds.")
       retry (max limits) 0 too_many)
    too_many.

(** The [catch] of [canActivate]: an [HttpException] is thrown again,
    anything else admits the request. *)
Definition on_error (e : exn) : Result bool :=
  match e with
  | HttpException _ _ => Err e
  | Error _ => Ok true
  end.

(** The [try] block of [canActivate] for the limits and the counter key
    of the request.  The clock is read at [t_get] by the lookup and at
    [t_op] by the call that follows it ([ttl], [setex] or [incr]).  The
    headers are those set before the decision, [None] when the lookup
    threw. *)
Definition check (t_get t_op : Z) (limits : RateLimit) (key : string) (s : S)
  : Result bool * option RateLimitHeaders * S :=
  match backend_get t_get key s with
  | (Err e, s1) => (on_error e, None, s1)
  | (Ok current, s1) =>
      let count := count_of current in
      let headers := Some (setRateLimitHeaders count limits) in
      if over_limit count limits
      then
        let '(t, s2) := getTTL t_op key s1 in
        (on_error (rejection limits (window limits - t)), headers, s2)
      else if is_zero count
      then match backend_setex t_op key (window limits) "1" s1 with
           | (Ok _, s2) => (Ok true, headers, s2)
           | (Err e, s2) => (on_error e, headers, s2)
           end
      else match backend_incr t_op key s1 with
           | (Ok _, s2) => (Ok true, headers, s2)
           | (Err e, s2) => (on_error e, headers, s2)
           end
  end.

Definition canActivate (isDevelopment : bool) (t_get t_op : Z)
  (ip endpoint method : string) (userId : option string) (s : S)
  : Result bool * option RateLimitHeaders * S :=
  check t_get t_op (getRateLimit isDevelopment endpoint method userId)
        (rate_key userId ip endpoint) s.

End Guard.
End RateLimitGuard.

(* ================================================================== *)
(** ** common/services/token-blacklist.service.ts *)

Module TokenBlacklistService.
Section Blacklist.
Context {S : Type} {backend : CacheBackend S}.

Definition key_of (token : string) : string := "blacklist:" ++ token.

Definition blacklistToken (now : Z) (token userId : string) (expiresIn : Z)
  (s : S) : Result unit * S :=
  let ttl := Z.max expiresIn 3600 in
  match backend_setex now (key_of token) ttl userId s with
  | (Ok _, s1) => (Ok tt, s1)
  | (Err e, s1) => (Err e, s1)
  end.

Definition isTokenBlacklisted (now : Z) (token : string) (s : S) : bool * S :=
  match backend_get now (key_of token) s with
  | (Ok result, s1) => (Js.truthy result, s1)
  | (Err _, s1) => (false, s1)
  end.

End Blacklist.
End TokenBlacklistService.

(* ================================================================== *)
(** ** modules/leaderboards/infrastructure/leaderboards.repository.ts

    The leaderboard is one SQL query and a [map] over its rows.  The query
    is embedded as the list computation it denotes: the two left joins, the
    [WHERE], the [GROUP BY] with its aggregates, the [ORDER BY]. *)

Module LeaderboardsRepository.

Inductive UserStatus := ACTIVE | INACTIVE | SUSPENDED.
Inductive SubmissionStatus := PENDING | APPROVED | REJECTED.
Inductive TimeRange := week | month | all.

Record User := mkUser {
  u_id : string;
  u_firstName : string;
  u_lastName : string;
  u_email : string;
  u_avatarUrl : option string;
  u_status : UserStatus
}.

Record Submission := mkSubmission {
  s_id : string;
  s_userId : string;
  s_projectId : string;
  s_status : SubmissionStatus;
  s_score : option Z;
  s_createdAt : Z
}.

Record Badge := mkBadge { b_id : string }.

(** The tables the query reads. *)
Record Database := mkDatabase {
  table_User : list User;
  table_Submission : list Submission;
  table_Badge : list Badge
}.

Record LeaderboardEntry := mkLeaderboardEntry {
  userId : string;
  firstName : string;
  lastName : string;
  email : string;
  avatarUrl : option string;
  totalScore : Z;
  totalSubmissions : Z;
  approvedSubmissions : Z;
  averageScore : Q;
  rank : Z;
  badges : Z;
  lastSubmissionAt : option Z
}.

Definition is_active (u : User) : bool :=
  match u_status u with ACTIVE => true | _ => false end.

Definition is_approved (s : Submission) : bool :=
  match s_status s with APPROVED => true | _ => false end.

(** [getDateFilter]: the lower bound on [createdAt], if any. *)
Definition getDateFilter (now : Z) (timeRange : option TimeRange) : option Z :=
  match timeRange with
  | None | Some all => None
  | Some week => Some (now - 7 * 24 * 60 * 60 * 1000)
  | Some month => Some (now - 30 * 24 * 60 * 60 * 1000)
  end.

(** [A LEFT JOIN B ON cond]: the matches of a row, or one row with the
    right side [NULL]. *)
Definition left_join {A B : Type} (cond : A -> B -> bool) (right : list B)
  (a : A) : list (A * option B) :=
  match filter (cond a) right with
  | [] => [(a, None)]
  | matches => List.map (fun b => (a, Some b)) matches
  end.

(** A row of the joined relation. *)
Definition Joined : Type := User * option Submission * option Badge.

Definition on_submission (dateFilter : option Z) (u : User) (s : Submission)
  : bool :=
  String.eqb (u_id u) (s_userId s)
  && match dateFilter with
     | Some d => (d <=? s_createdAt s)%Z
     | None => true
     end.

Definition on_badge (us : User * option Submission) (b : Badge) : bool :=
  String.eqb (u_id (fst us)) (b_id b).

(** [FROM "User" u LEFT JOIN "Submission" s ... LEFT JOIN "Badge" b ...
    WHERE u.status = 'ACTIVE']. *)
Definition joined_rows (db : Database) (dateFilter : option Z) : list Joined :=
  filter (fun r => is_active (fst (fst r)))
    (flat_map (left_join on_badge (table_Badge db))
       (flat_map (left_join (on_submission dateFilter) (table_Submission db))
          (table_User db))).

(** The columns of the [GROUP BY]. *)
Definition group_key (u : User)
  : string * string * string * string * option string :=
  (u_id u, u_firstName u, u_lastName u, u_email u, u_avatarUrl u).

Definition option_string_eqb (a b : option string) : bool :=
  match a, b with
  | Some x, Some y => String.eqb x y
  | None, None => true
  | _, _ => false
  end.

Definition same_group (u v : User) : bool :=
  String.eqb (u_id u) (u_id v)
  && String.eqb (u_firstName u) (u_firstName v)
  && String.eqb (u_lastName u) (u_lastName v)
  && String.eqb (u_email u) (u_email v)
  && option_string_eqb (u_avatarUrl u) (u_avatarUrl v).

(** The groups, each with its rows, in the order in which their first row
    appears. *)
Fixpoint group_by (rows : list Joined) : list (User * list Joined) :=
  match rows with
  | [] => []
  | r :: rest =>
      let u := fst (fst r) in
      let groups := group_by rest in
      let mine := filter (fun g => same_group u (fst g)) groups in
      let others := filter (fun g => negb (same_group u (fst g))) groups in
      (u, r :: flat_map snd mine) :: others
  end.

(** The submissions of the rows of a group, one per row whose submission
    side is not [NULL]. *)
Definition submissions_of (rows : list Joined) : list Submission :=
  flat_map (fun r => match snd (fst r) with Some s => [s] | None => [] end) rows.

Definition scores_of (subs : list Submission) : list Z :=
  flat_map (fun s => match s_score s with Some n => [n] | None => [] end) subs.

Definition sum (l : list Z) : Z := fold_right Z.add 0 l.

Definition count {A : Type} (l : list A) : Z := Z.of_nat (List.length l).

(** [COALESCE(AVG(x), 0)] over the non-[NULL] values [l], as the exact
    quotient (the database rounds it to the scale of its numeric type; the
    [ORDER BY] is on the column as computed, either way). *)
Definition average (l : list Z) : Q :=
  match l with
  | [] => 0%Q
  | _ => Qred (Qmake (sum l) (Pos.of_nat (List.length l)))
  end.

Fixpoint maximum (l : list Z) : option Z :=
  match l with
  | [] => None
  | x :: r => match maximum r with Some m => Some (Z.max x m) | None => Some x end
  end.

(** The [SELECT] list over one group; [rank] is filled in afterwards. *)
Definition aggregate (g : User * list Joined) : LeaderboardEntry :=
  let u := fst g in
  let subs := submissions_of (snd g) in
  let approved := filter is_approved subs in
  mkLeaderboardEntry
    (u_id u) (u_firstName u) (u_lastName u) (u_email u) (u_avatarUrl u)
    (sum (scores_of subs))
    (count subs)
    (count approved)
    (average (scores_of approved))
    0
    (count (flat_map (fun r => match snd r with Some b => [b] | None => [] end)
              (snd g)))
    (maximum (List.map s_createdAt subs)).

(** [ORDER BY "totalScore" DESC, "approvedSubmissions" DESC,
    "averageScore" DESC]: [a] may come before [b]. *)
Definition precedes (a b : LeaderboardEntry) : bool :=
  (totalScore b <? totalScore a)%Z
  || ((totalScore a =? totalScore b)%Z
      && ((approvedSubmissions b <? approvedSubmissions a)%Z
          || ((approvedSubmissions a =? approvedSubmissions b)%Z
              && Qle_bool (averageScore b) (averageScore a)))).

(** The sort of the [ORDER BY], as a stable insertion sort (SQL leaves
    the order of rows that tie on every key open). *)
Fixpoint insert (a : LeaderboardEntry) (l : list LeaderboardEntry)
  : list LeaderboardEntry :=
  match l with
  | [] => [a]
  | b :: r => if precedes a b then a :: l else b :: insert a r
  end.

Definition order_by (l : list LeaderboardEntry) : list LeaderboardEntry :=
  fold_right insert [] l.

(** [results.map((row, index) => ({ ..., rank: index + 1 }))]. *)
Fixpoint assign_ranks (index : Z) (rows : list LeaderboardEntry)
  : list LeaderboardEntry :=
  match rows with
  | [] => []
  | row :: rest =>
      mkLeaderboardEntry
        (userId row) (firstName row) (lastName row) (email row)
        (avatarUrl row) (totalScore row) (totalSubmissions row)
        (approvedSubmissions row) (averageScore row) (index + 1)
        (badges row) (lastSubmissionAt row)
      :: assign_ranks (index + 1) rest
  end.

(** The rows the query returns. *)
Definition query (db : Database) (dateFilter : option Z)
  : list LeaderboardEntry :=
  order_by (List.map aggregate (group_by (joined_rows db dateFilter))).

Definition calculateOverallLeaderboard (now : Z) (db : Database)
  (timeRange : option TimeRange) : list LeaderboardEntry :=
  assign_ranks 0 (query db (getDateFilter now timeRange)).

End LeaderboardsRepository.

(* ================================================================== *)
(** ** Sample values used by the examples *)

(** A codec for a fragment of JSON: [null], the integers in canonical
    decimal form and strings that need no escape, written between double
    quotes.  A text outside the fragment is a syntax error. *)
Inductive Scalar := SNull | SInt (n : Z) | SText (s : string).

Module ScalarJSON.

Definition quote : ascii := ascii_of_nat 34.

Definition stringify (v : Scalar) : string :=
  match v with
  | SNull => "null"
  | SInt n => Js.toString n
  | SText s => String quote (s ++ String quote EmptyString)
  end.

(** The text before a closing quote that ends the string. *)
Fixpoint unquote (s : string) : option string :=
  match s with
  | EmptyString => None
  | String c EmptyString => if Ascii.eqb c quote then Some EmptyString else None
  | String c r => option_map (String c) (unquote r)
  end.

Definition parse (s : string) : option Scalar :=
  if String.eqb s "null" then Some SNull
  else match s with
       | EmptyString => None
       | String c r =>
           if Ascii.eqb c quote then option_map SText (unquote r)
           else match Js.parseInt s with
                | Some n => if String.eqb (Js.toString n) s then Some (SInt n) else None
                | None => None
                end
       end.

Definition null (v : Scalar) : bool :=
  match v with SNull => true | _ => false end.

Definition to_string (v : Scalar) : string :=
  match v with SText s => s | _ => stringify v end.

End ScalarJSON.

#[export] Instance Scalar_JSON : JSON Scalar := {
  js_null := SNull;
  is_null := ScalarJSON.null;
  JSON_stringify := ScalarJSON.stringify;
  JSON_parse := ScalarJSON.parse;
  js_string := SText;
  as_string := ScalarJSON.to_string
}.

Module Samples.
Import MemoryCacheService LeaderboardsRepository.

(** A store as [create] makes it, but with room for two entries. *)
Definition small : MemoryCacheService.t := MemoryCacheService.mk [] 2.

(** [n] distinct keys. *)
Definition key_of (i : nat) : string := "k" ++ Js.toString (Z.of_nat i).

(** The store of the service after [n] inserts of distinct keys. *)
Definition filled (n : nat) : MemoryCacheService.t :=
  fold_left (fun s i => MemoryCacheService.set 0 (key_of i) "v" None s)
            (seq 0 n) MemoryCacheService.create.

Definition active (id : string) : User := mkUser id "" "" "" None ACTIVE.

Definition submission (id user : string) (st : SubmissionStatus) (n : Z)
  : Submission := mkSubmission id user "p" st (Some n) 0.

(** [U1] with two approved submissions and [U2] with three, 100 points
    each in all. *)
Definition tie : Database :=
  mkDatabase
    [active "U1"; active "U2"]
    [submission "s1" "U1" APPROVED 50; submission "s2" "U1" APPROVED 50;
     submission "s3" "U2" APPROVED 40; submission "s4" "U2" APPROVED 30;
     submission "s5" "U2" APPROVED 30]
    [].

(** One user with an approved submission of 80 points and a rejected one
    that was given 30. *)
Definition rejected_with_score : Database :=
  mkDatabase
    [active "U1"]
    [submission "s1" "U1" APPROVED 80; submission "s2" "U1" REJECTED 30]
    [].

(** A factory that throws on its first invocation and returns on the
    next ones, and one that always throws. *)
Definition flaky : Factory Scalar :=
  fun n => match n with O => Err (Error "boom") | _ => Ok (SInt 42) end.

Definition failing : Factory Scalar := fun _ => Err (Error "boom").

Definition constant (v : Scalar) : Factory Scalar := fun _ => Ok v.

End Samples.

(** ** Runs of counter operations on one key *)



(** The key is not readable at [now]: not in the map, or expired. *)
Definition unreadable (now : Z) (key : string) (s : MemoryCacheService.t) : Prop :=
  match JsMap.get key (MemoryCacheService.cache s) with
  | Some e => MemoryCacheService.expired now e = true
  | None => True
  end.

(** ** Requests served one after the other *)

(** The guard's [check] run on a sequence of requests for one counter key;
    each request brings its two clock readings. *)
Fixpoint serve (limits : RateLimit) (key : string) (clock : list (Z * Z))
  (s : MemoryCacheService.t)
  : list (Result bool * option RateLimitHeaders) * MemoryCacheService.t :=
  match clock with
  | [] => ([], s)
  | (t_get, t_op) :: rest =>
      let '(r, h, s1) := RateLimitGuard.check t_get t_op limits key s in
      let '(rs, s2) := serve limits key rest s1 in
      ((r, h) :: rs, s2)
  end.

(** The counter of [key] stands at [n] and its window closes at [closes]. *)
Definition counting (key : string) (closes n : Z) (s : MemoryCacheService.t)
  : Prop :=
  JsMap.get key (MemoryCacheService.cache s) = Some (mkEntry (Js.toString n) closes).

(** The [retryAfter] of a result, if it is a rejection. *)
Definition retry_of (r : Result bool) : option Z :=
  match r with
  | Err (HttpException body _) => Some (retryAfter body)
  | _ => None
  end.


(** ** The order of the leaderboard, as a relation *)

(** [a] may stand before [b]: a higher total score; on equal totals more
    approved submissions; on equal counts an average score at least as high. *)
Definition ranks_before (a b : LeaderboardsRepository.LeaderboardEntry) : Prop :=
  let total := LeaderboardsRepository.totalScore in
  let approved := LeaderboardsRepository.approvedSubmissions in
  let average := LeaderboardsRepository.averageScore in
  (total b < total a)%Z
  \/ (total a = total b
      /\ ((approved b < approved a)%Z
          \/ (approved a = approved b /\ (average b <= average a)%Q))).

(** ** Predicates on the store used in the statements *)


(** The entries of [Samples.filled], oldest first. *)
Definition sample_entries (l : list nat) : JsMap.t CacheEntry :=
  List.map (fun i => (Samples.key_of i, mkEntry "v" 0)) l.

(** The key is populated in the store at [now] with the string [str]. *)
Definition populated (now : Z) (fullKey str : string)
  (s : MemoryCacheService.t) : Prop :=
  fst (MemoryCacheService.get now fullKey s) = Some str.

(** ** Calls of [getOrSet] one after the other *)

(** [getOrSet] called once per pair of clock readings, on the in-memory
    store; the result is the number of invocations of the factory and the
    store at the end. *)
Fixpoint getOrSet_many {V : Type} {json : JSON V} (clock : list (Z * Z))
  (key : string) (factory : Factory V) (options : CacheOptions) (calls : nat)
  (s : MemoryCacheService.t) : nat * MemoryCacheService.t :=
  match clock with
  | [] => (calls, s)
  | (t_get, t_set) :: rest =>
      let '(_, calls', s') :=
        CacheService.getOrSet t_get t_set key factory options calls s in
      getOrSet_many rest key factory options calls' s'
  end.

(** The stored string is empty, or parses to [null] and is parsed. *)
Definition null_like {V : Type} {json : JSON V} (options : CacheOptions)
  (str : string) : Prop :=
  str = EmptyString
  \/ (CacheService.serializing options = true /\ JSON_parse str = Some js_null).

(* ================================================================== *)
(** ** Runs of store operations *)

(** The keys of the map are pairwise distinct, as those of a [Map] are. *)
Definition unique_keys (s : MemoryCacheService.t) : Prop :=
  NoDup (JsMap.keys (MemoryCacheService.cache s)).

(** The key that [set] evicts before it stores [key], if any. *)
Definition evicted_by_set (key : string) (s : MemoryCacheService.t)
  : option string :=
  if (MemoryCacheService.maxSize s <=? JsMap.size (MemoryCacheService.cache s))%nat
     && negb (JsMap.has key (MemoryCacheService.cache s))
  then match JsMap.first_key (MemoryCacheService.cache s) with
       | Some firstKey => if Js.truthy_string firstKey then Some firstKey else None
       | None => None
       end
  else None.

(** The calls that go through the capacity check or remove entries, each
    with the clock reading it makes. *)
Inductive StoreOp :=
| OpSet (now : Z) (key value : string) (ttl : option Z)
| OpGet (now : Z) (key : string)
| OpExists (now : Z) (key : string)
| OpDel (key : string)
| OpDelMultiple (keys : list string)
| OpExpire (now : Z) (key : string) (ttl : Z)
| OpCleanup (now : Z).

Definition apply_op (op : StoreOp) (s : MemoryCacheService.t)
  : MemoryCacheService.t :=
  match op with
  | OpSet now key value ttl => MemoryCacheService.set now key value ttl s
  | OpGet now key => snd (MemoryCacheService.get now key s)
  | OpExists now key => snd (MemoryCacheService.exists_ now key s)
  | OpDel key => snd (MemoryCacheService.del key s)
  | OpDelMultiple keys => snd (MemoryCacheService.delMultiple keys s)
  | OpExpire now key ttl => snd (MemoryCacheService.expire now key ttl s)
  | OpCleanup now => MemoryCacheService.cleanupExpired now s
  end.

Definition run_store (ops : list StoreOp) (s : MemoryCacheService.t)
  : MemoryCacheService.t :=
  fold_left (fun s op => apply_op op s) ops s.

(** The operation does not store under the empty key. *)
Definition sets_named_key (op : StoreOp) : Prop :=
  match op with
  | OpSet _ key _ _ => key <> EmptyString
  | _ => True
  end.


(** No entry is stored under the empty key. *)
Definition no_empty_key (s : MemoryCacheService.t) : Prop :=
  ~ In EmptyString (JsMap.keys (MemoryCacheService.cache s)).


(** ** Outcomes of the guard *)

(** The request was admitted: [canActivate] returned [true]. *)
Definition is_admitted (r : Result bool) : bool :=
  match r with Ok true => true | _ => false end.

(** The result is not a thrown [HttpException]. *)
Definition plain {A : Type} (r : Result A) : Prop :=
  match r with Err (HttpException _ _) => False | _ => True end.

(** A backend whose failures are never [HttpException]s. *)
Definition throws_plain_errors (S : Type) (backend : CacheBackend S) : Prop :=
  forall now key n str (s : S),
    plain (fst (backend_get now key s))
    /\ plain (fst (backend_setex now key n str s))
    /\ plain (fst (backend_incr now key s)).


(* ================================================================== *)
(** ** adapters/cache/memory-cache.service.ts: [keys] and [patternToRegex]

    A string is taken as a sequence of code units below 256, so that the
    line terminators that [.] does not match are line feed and carriage
    return. *)

Module Pattern.

(** The terms of the regular expressions that [patternToRegex] can build:
    a literal character, an optional one ([c?]), and [.*]. *)
Inductive Term :=
| Lit (c : ascii)
| Opt (c : ascii)
| AnyStar.

Definition is_line_terminator (c : ascii) : bool :=
  let n := nat_of_ascii c in (Nat.eqb n 10 || Nat.eqb n 13)%bool.

Definition star : ascii := ascii_of_nat 42.
Definition question : ascii := ascii_of_nat 63.

(** [patternToRegex]: the characters [. + ^ $ { } ( ) | [ ] \ ] are escaped
    and stand for themselves, [*] becomes [.*], and every other character
    goes into the source of the expression as it is.  That leaves [?] as
    the one character with a meaning: after a character it makes it
    optional, after [.*] or after such a [?] it only makes the repetition
    lazy, and anywhere else [new RegExp] throws ([None]). *)
Fixpoint patternToRegex (pattern : string) : option (list Term) :=
  match pattern with
  | EmptyString => Some []
  | String c rest =>
      if Ascii.eqb c question then None
      else
        let term := if Ascii.eqb c star then AnyStar else Lit c in
        let optional := if Ascii.eqb c star then AnyStar else Opt c in
        match rest with
        | EmptyString => Some [term]
        | String q1 rest1 =>
            if Ascii.eqb q1 question
            then match rest1 with
                 | EmptyString => Some [optional]
                 | String q2 rest2 =>
                     if Ascii.eqb q2 question
                     then if Ascii.eqb c star then None
                          else option_map (cons optional) (patternToRegex rest2)
                     else option_map (cons optional) (patternToRegex rest1)
                 end
            else option_map (cons term) (patternToRegex rest)
        end
  end.

(** [regex.test(key)] for the expression [^...$] made of the terms. *)
Fixpoint test (re : list Term) (key : string) : bool :=
  match re with
  | [] => match key with EmptyString => true | _ => false end
  | Lit c :: re' =>
      match key with
      | String d r => Ascii.eqb c d && test re' r
      | EmptyString => false
      end
  | Opt c :: re' =>
      test re' key
      || match key with
         | String d r => Ascii.eqb c d && test re' r
         | EmptyString => false
         end
  | AnyStar :: re' =>
      (fix any (key : string) : bool :=
         test re' key
         || match key with
            | String d r => negb (is_line_terminator d) && any r
            | EmptyString => false
            end) key
  end.

End Pattern.

(** [keys(pattern)]: the keys that match and have not expired, oldest
    first.  The clock is read once for every entry looked at; [clock k] is
    the reading made at the entry of [k].  Nothing is purged. *)
Definition MemoryCacheService_keys (clock : string -> Z) (pattern : string)
  (s : MemoryCacheService.t) : Result (list string) :=
  match Pattern.patternToRegex pattern with
  | None => Err (Error "Invalid regular expression")
  | Some regex =>
      Ok (List.map fst
            (filter (fun kv => Pattern.test regex (fst kv)
                               && MemoryCacheService.live (clock (fst kv)) (snd kv))
                    (MemoryCacheService.cache s)))
  end.

(* ================================================================== *)
(** ** common/services/cache.service.ts: [delPattern], over the in-memory
    store *)

Definition CacheService_delPattern (clock : string -> Z) (pattern : string)
  (options : CacheOptions) (s : MemoryCacheService.t)
  : Z * MemoryCacheService.t :=
  let fullPattern := CacheService.buildKey pattern (prefix options) in
  match MemoryCacheService_keys clock fullPattern s with
  | Err _ => (0%Z, s)
  | Ok [] => (0%Z, s)
  | Ok keys =>
      (Z.of_nat (List.length keys),
       snd (MemoryCacheService.delMultiple keys s))
  end.

(* ================================================================== *)
(** ** modules/leaderboards/application/leaderboards.service.ts:
    [clearLeaderboardCaches] *)

Module LeaderboardsService.

Definition patterns : list string :=
  ["leaderboard:overall:*"; "leaderboard:project:*"; "leaderboard:category:*";
   "leaderboard:stats"; "leaderboard:top:*"; "user:rank:*"].

Definition under (p : string) : CacheOptions := mkOptions None (Some p) None.

(** The loop over the patterns: each is deleted under the prefix
    [leaderboard] and under the prefix [user].  [clock i] is the clock of
    the [delPattern] number [i] (from [first]). *)
Fixpoint clear_patterns (clock : nat -> string -> Z) (first : nat)
  (ps : list string) (s : MemoryCacheService.t) : MemoryCacheService.t :=
  match ps with
  | [] => s
  | pattern :: rest =>
      let s1 := snd (CacheService_delPattern (clock first) pattern
                       (under "leaderboard") s) in
      let s2 := snd (CacheService_delPattern (clock (S first)) pattern
                       (under "user") s1) in
      clear_patterns clock (S (S first)) rest s2
  end.

Definition clearLeaderboardCaches (clock : nat -> string -> Z)
  (s : MemoryCacheService.t) : MemoryCacheService.t :=
  clear_patterns clock 0 patterns s.

(** The keys and options under which the service caches. *)
Definition overall_key (timeRange : option LeaderboardsRepository.TimeRange)
  : string :=
  "leaderboard:overall:"
  ++ match timeRange with
     | Some LeaderboardsRepository.week => "week"
     | Some LeaderboardsRepository.month => "month"
     | Some LeaderboardsRepository.all | None => "all"
     end.

Definition project_key (projectId : string) : string :=
  "leaderboard:project:" ++ projectId.

Definition category_key (category : string) : string :=
  "leaderboard:category:" ++ category.

Definition stats_key : string := "leaderboard:stats".

Definition rank_key (userId : string) : string := "user:rank:" ++ userId.

Definition overall_options : CacheOptions :=
  mkOptions (Some 300%Z) (Some "leaderboard") None.
Definition project_options : CacheOptions :=
  mkOptions (Some 120%Z) (Some "leaderboard") None.
Definition category_options : CacheOptions :=
  mkOptions (Some 300%Z) (Some "leaderboard") None.
Definition stats_options : CacheOptions :=
  mkOptions (Some 300%Z) (Some "leaderboard") None.
Definition rank_options : CacheOptions :=
  mkOptions (Some 60%Z) (Some "user") None.

End LeaderboardsService.

(** No line feed and no carriage return in the string. *)
Fixpoint one_line (s : string) : bool :=
  match s with
  | EmptyString => true
  | String c r => negb (Pattern.is_line_terminator c) && one_line r
  end.


(** The characters of a pattern prefix that [patternToRegex] takes as they
    are: neither [*] nor [?]. *)
Fixpoint plain_pattern (p : string) : bool :=
  match p with
  | EmptyString => true
  | String c r =>
      negb (Ascii.eqb c Pattern.star) && negb (Ascii.eqb c Pattern.question)
      && plain_pattern r
  end.

(** What follows the prefix [p] in [k], if [k] starts with [p]. *)
Fixpoint strip_prefix (p k : string) : option string :=
  match p with
  | EmptyString => Some k
  | String c p' =>
      match k with
      | String d k' => if Ascii.eqb c d then strip_prefix p' k' else None
      | EmptyString => None
      end
  end.

(** The literal terms of a string. *)
Fixpoint literal (p : string) : list Pattern.Term :=
  match p with
  | EmptyString => []
  | String c r => Pattern.Lit c :: literal r
  end.


(* ================================================================== *)
(** ** common/services/token-blacklist.service.ts: the other methods, over
    the in-memory store *)


Module TokenBlacklist.

(** The loop of [blacklistAllUserTokens]: the keys whose value read back is
    the user id.  [clock k] is the clock reading of the [get] of [k]. *)
Fixpoint collect (clock : string -> Z) (userId : string) (keys : list string)
  (s : MemoryCacheService.t) : list string * MemoryCacheService.t :=
  match keys with
  | [] => ([], s)
  | key :: rest =>
      let '(tokenUserId, s1) := MemoryCacheService.get (clock key) key s in
      let '(userTokens, s2) := collect clock userId rest s1 in
      (match tokenUserId with
       | Some u => if String.eqb u userId then key :: userTokens else userTokens
       | None => userTokens
       end, s2)
  end.

(** [blacklistAllUserTokens]: the entries under [blacklist:*] that hold the
    user id are deleted. *)
Definition blacklistAllUserTokens (clock_keys clock_get : string -> Z)
  (userId : string) (s : MemoryCacheService.t)
  : Result unit * MemoryCacheService.t :=
  match MemoryCacheService_keys clock_keys "blacklist:*" s with
  | Err e => (Err e, s)
  | Ok keys =>
      let '(userTokens, s1) := collect clock_get userId keys s in
      match userTokens with
      | [] => (Ok tt, s1)
      | _ => (Ok tt, snd (MemoryCacheService.delMultiple userTokens s1))
      end
  end.




End TokenBlacklist.

(* ================================================================== *)
(** ** modules/auth: [AuthService.logout] and [JwtStrategy.validate] *)



Module AuthService.


End AuthService.

Module JwtStrategy.
Section Validate.
Context {S : Type} {backend : CacheBackend S}.


End Validate.
End JwtStrategy.


(** What it is for the cache of the leaderboards to be cleared in [after],
    with [clock i] the clock of the [delPattern] number [i]: every key under
    which the service caches is gone from the store or had expired when it
    was looked at (for a project id, category, limit or user id without a
    line break), and the next [getOrSet] for an overall board invokes its
    factory. *)
Definition caches_cleared (clock : nat -> string -> Z)
  (after : MemoryCacheService.t) : Prop :=
  let full key options := CacheService.buildKey key (prefix options) in
  let cleared i K := unreadable (clock i K) K after in
  (forall timeRange,
     cleared 0%nat (full (LeaderboardsService.overall_key timeRange)
                      LeaderboardsService.overall_options))
  /\ (forall projectId, one_line projectId = true ->
        cleared 2%nat (full (LeaderboardsService.project_key projectId)
                         LeaderboardsService.project_options))
  /\ (forall category, one_line category = true ->
        cleared 4%nat (full (LeaderboardsService.category_key category)
                         LeaderboardsService.category_options))
  /\ cleared 6%nat (full LeaderboardsService.stats_key
                      LeaderboardsService.stats_options)
  /\ (forall limit, one_line limit = true ->
        cleared 8%nat (full ("leaderboard:top:" ++ limit)
                         LeaderboardsService.overall_options))
  /\ (forall userId, one_line userId = true ->
        cleared 11%nat (full (LeaderboardsService.rank_key userId)
                          LeaderboardsService.rank_options))
  /\ (forall (V : Type) (json : JSON V) (laws : JSONLaws V)
             timeRange t_get t_set (factory : Factory V) calls,
        (clock 0%nat (full (LeaderboardsService.overall_key timeRange)
                        LeaderboardsService.overall_options) <= t_get)%Z ->
        (S calls
         <= snd (fst (CacheService.getOrSet t_get t_set
                        (LeaderboardsService.overall_key timeRange) factory
                        LeaderboardsService.overall_options calls after)))%nat).


(* ================================================================== *)
(** ** leaderboards.repository.ts: the boards of a project and of a category *)

(** A row of the project table, with the columns the queries read. *)
Record Project := mkProject { p_id : string; p_category : string }.

Module RepositoryQueries.
Import LeaderboardsRepository.

(** The joins of the board queries with [cond] as the [ON] of the
    submissions, and their [WHERE]. *)
Definition rows_with (cond : User -> Submission -> bool) (db : Database)
  : list Joined :=
  filter (fun r => is_active (fst (fst r)))
    (flat_map (left_join on_badge (table_Badge db))
       (flat_map (left_join cond (table_Submission db)) (table_User db))).

(** [ON u.id = s."userId" AND s."projectId" = $1]. *)
Definition on_project_submission (projectId : string) (u : User)
  (s : Submission) : bool :=
  String.eqb (u_id u) (s_userId s) && String.eqb (s_projectId s) projectId.

Definition calculateProjectLeaderboard (db : Database) (projectId : string)
  : list LeaderboardEntry :=
  assign_ranks 0
    (order_by
       (List.map aggregate
          (group_by (rows_with (on_project_submission projectId) db)))).

(** A row of the joins of the category query. *)
Definition CategoryRow : Type :=
  User * option Submission * option Project * option Badge.

(** [ON s."projectId" = p.id AND p.category = $1]; on a row whose
    submission side is [NULL] the comparison is not true. *)
Definition on_category (category : string) (us : User * option Submission)
  (p : Project) : bool :=
  match snd us with
  | Some s =>
      String.eqb (s_projectId s) (p_id p) && String.eqb (p_category p) category
  | None => false
  end.

Definition on_category_badge (usp : User * option Submission * option Project)
  (b : Badge) : bool :=
  String.eqb (u_id (fst (fst usp))) (b_id b).

Definition category_rows (db : Database) (projects : list Project)
  (category : string) : list CategoryRow :=
  filter (fun r => is_active (fst (fst (fst r))))
    (flat_map (left_join on_category_badge (table_Badge db))
       (flat_map (left_join (on_category category) projects)
          (flat_map (left_join (on_submission None) (table_Submission db))
             (table_User db)))).

(** The columns of a row that the [GROUP BY] and the [SELECT] list read:
    those of [u], [s] and [b]. *)
Definition selected (r : CategoryRow) : Joined :=
  (fst (fst (fst r)), snd (fst (fst r)), snd r).

Definition calculateCategoryLeaderboard (db : Database)
  (projects : list Project) (category : string) : list LeaderboardEntry :=
  assign_ranks 0
    (order_by
       (List.map aggregate
          (group_by (List.map selected (category_rows db projects category))))).

(** The rows of one user in the joins. *)
Definition user_rows (cond : User -> Submission -> bool) (db : Database)
  (u : User) : list Joined :=
  flat_map (left_join on_badge (table_Badge db))
    (left_join cond (table_Submission db) u).



End RepositoryQueries.

(* ================================================================== *)
(** ** leaderboards.service.ts: [paginateResults] *)

Module Paginate.

(** The value of [Math.ceil(a / b)] for integers [a] and [b]. *)
Inductive Quotient := Finite (n : Z) | Infinity | NaN.

Record Pagination := mkPagination {
  page : Z;
  limit : Z;
  total : Z;
  totalPages : Quotient;
  hasNext : bool;
  hasPrev : bool
}.

(** The index that [slice] makes of an integer argument: counted from the
    end when negative, and clamped to the array. *)
Definition relative_index (len i : Z) : Z :=
  if (i <? 0)%Z then Z.max (len + i) 0 else Z.min i len.

(** [Array.prototype.slice(start, end)]. *)
Definition slice {A : Type} (start finish : Z) (l : list A) : list A :=
  let len := Z.of_nat (List.length l) in
  let k := relative_index len start in
  let final := relative_index len finish in
  firstn (Z.to_nat (final - k)) (skipn (Z.to_nat k) l).

(** [Math.ceil(a / b)] for [0 <= a]; a zero that JavaScript signs is the
    plain [0] here. *)
Definition ceil_div (a b : Z) : Quotient :=
  if (b =? 0)%Z then (if (a =? 0)%Z then NaN else Infinity)
  else Finite (- ((- a) / b))%Z.

Definition paginateResults {A : Type} (leaderboard : list A) (page limit : Z)
  : list A * Pagination :=
  let startIndex := ((page - 1) * limit)%Z in
  let endIndex := (startIndex + limit)%Z in
  let paginatedData := slice startIndex endIndex leaderboard in
  let len := Z.of_nat (List.length leaderboard) in
  (paginatedData,
   mkPagination page limit len (ceil_div len limit)
     (endIndex <? len)%Z (1 <? page)%Z).

(** The pages [1], ..., [n]. *)
Definition pages (n : nat) : list Z :=
  List.map (fun i => Z.of_nat i + 1)%Z (seq 0 n).

End Paginate.


(* ================================================================== *)
(** * Properties *)

Local Open Scope list_scope.
Local Open Scope Z_scope.

(** ** Decimal printing and [parseInt] *)

Section JsFacts.

Lemma decimal_prefix_string_of_uint (d : Decimal.uint) :
  Js.decimal_prefix (NilEmpty.string_of_uint d) = d.
Proof. induction d; cbn; congruence. Qed.

Lemma skip_spaces_string_of_uint (d : Decimal.uint) :
  Js.skip_spaces (NilEmpty.string_of_uint d) = NilEmpty.string_of_uint d.
Proof. destruct d; reflexivity. Qed.

Lemma parse_magnitude_string_of_uint (d : Decimal.uint) :
  d <> Decimal.Nil ->
  Js.parse_magnitude (NilEmpty.string_of_uint d) = Some (Z.of_uint d).
Proof.
  intros Hd. unfold Js.parse_magnitude.
  destruct d as [|d|d|d|d|d|d|d|d|d|d]; try congruence;
    try (cbn [NilEmpty.string_of_uint];
         rewrite <- (decimal_prefix_string_of_uint d) at 2;
         reflexivity).
  destruct d; cbn [NilEmpty.string_of_uint];
    try reflexivity;
    match goal with
    | |- context [NilEmpty.string_of_uint ?x] =>
        rewrite <- (decimal_prefix_string_of_uint x) at 2; reflexivity
    end.
Qed.

Lemma parseInt_string_of_uint (d : Decimal.uint) :
  d <> Decimal.Nil ->
  Js.parseInt (NilEmpty.string_of_uint d) = Some (Z.of_uint d).
Proof.
  intros Hd. unfold Js.parseInt. rewrite skip_spaces_string_of_uint.
  rewrite <- (parse_magnitude_string_of_uint d Hd).
  destruct d; try congruence; reflexivity.
Qed.

Lemma to_uint_not_nil (p : positive) : Pos.to_uint p <> Decimal.Nil.
Proof.
  intros H. pose proof (DecimalZ.of_to (Z.pos p)) as E.
  cbn in E. rewrite H in E. discriminate E.
Qed.

Lemma string_of_to_uint (p : positive) :
  NilZero.string_of_uint (Pos.to_uint p) = NilEmpty.string_of_uint (Pos.to_uint p).
Proof.
  pose proof (to_uint_not_nil p). destruct (Pos.to_uint p); [congruence | reflexivity ..].
Qed.

(** [parseInt] reads back what [toString] prints. *)
Lemma parseInt_toString (n : Z) : Js.parseInt (Js.toString n) = Some n.
Proof.
  destruct n as [|p|p]; [reflexivity| |].
  - unfold Js.toString. cbn [Z.to_int NilZero.string_of_int].
    rewrite string_of_to_uint, parseInt_string_of_uint by apply to_uint_not_nil.
    f_equal. exact (DecimalZ.of_to (Z.pos p)).
  - unfold Js.toString. cbn [Z.to_int NilZero.string_of_int].
    rewrite string_of_to_uint.
    change (Js.parseInt (String "-" ?s))
      with (option_map Z.opp (Js.parse_magnitude s)).
    rewrite parse_magnitude_string_of_uint by apply to_uint_not_nil.
    cbn [option_map]. f_equal. exact (DecimalZ.of_to (Z.neg p)).
Qed.

Lemma parseInt_or_0_toString (n : Z) : Js.parseInt_or_0 (Js.toString n) = n.
Proof. unfold Js.parseInt_or_0. now rewrite parseInt_toString. Qed.

Lemma toString_truthy (n : Z) : Js.truthy_string (Js.toString n) = true.
Proof.
  destruct (Js.toString n) eqn:E; [|reflexivity].
  pose proof (parseInt_toString n) as P. rewrite E in P. discriminate P.
Qed.

End JsFacts.

(** ** The insertion-ordered map *)

Section JsMapFacts.
Context {V : Type}.
Implicit Types (m : JsMap.t V) (k : string) (v : V).

Lemma get_set_same k v m : JsMap.get k (JsMap.set k v m) = Some v.
Proof.
  induction m as [|[k' v'] r IH]; cbn.
  - now rewrite String.eqb_refl.
  - destruct (String.eqb k k') eqn:E; cbn; rewrite ?String.eqb_refl, ?E; auto.
Qed.

Lemma get_set_other k k' v m :
  k <> k' -> JsMap.get k' (JsMap.set k v m) = JsMap.get k' m.
Proof.
  intros Hne. induction m as [|[k0 v0] r IH]; cbn.
  - destruct (String.eqb_spec k' k); congruence.
  - destruct (String.eqb_spec k k0) as [->|Hk]; cbn.
    + destruct (String.eqb_spec k' k0); congruence.
    + destruct (String.eqb_spec k' k0); auto.
Qed.

Lemma get_delete_same k m : JsMap.get k (JsMap.delete k m) = None.
Proof.
  induction m as [|[k' v'] r IH]; cbn; auto.
  destruct (String.eqb k k') eqn:E; cbn; rewrite ?E; auto.
Qed.

Lemma get_delete_other k k' m :
  k <> k' -> JsMap.get k' (JsMap.delete k m) = JsMap.get k' m.
Proof.
  intros Hne. induction m as [|[k0 v0] r IH]; cbn; auto.
  destruct (String.eqb_spec k k0) as [->|Hk]; cbn.
  - destruct (String.eqb_spec k' k0); congruence.
  - destruct (String.eqb_spec k' k0); auto.
Qed.

Lemma size_set_absent k v m :
  JsMap.get k m = None -> JsMap.size (JsMap.set k v m) = S (JsMap.size m).
Proof.
  unfold JsMap.size. induction m as [|[k' v'] r IH]; cbn; auto.
  destruct (String.eqb k k'); [discriminate|]. intros H. cbn. now rewrite IH.
Qed.

Lemma size_set_present k v m :
  JsMap.get k m <> None -> JsMap.size (JsMap.set k v m) = JsMap.size m.
Proof.
  unfold JsMap.size. induction m as [|[k' v'] r IH]; cbn; [congruence|].
  destruct (String.eqb k k'); cbn; auto.
Qed.

Lemma size_delete_le k m : (JsMap.size (JsMap.delete k m) <= JsMap.size m)%nat.
Proof.
  unfold JsMap.size. induction m as [|[k' v'] r IH]; cbn; auto.
  destruct (String.eqb k k'); cbn; lia.
Qed.

Lemma size_delete_first k v m :
  (JsMap.size (JsMap.delete k ((k, v) :: m)) <= JsMap.size m)%nat.
Proof. cbn. rewrite String.eqb_refl. apply size_delete_le. Qed.

End JsMapFacts.

(** ** The in-memory store *)

Section StoreFacts.
Import MemoryCacheService.

Lemma live_negb_expired now e : live now e = negb (expired now e).
Proof.
  unfold live, expired. destruct (Js.truthy_num (expiresAt e)); cbn; auto.
  rewrite Z.gtb_ltb, Z.ltb_antisym. now rewrite negb_involutive.
Qed.

(** What [get] answers, without the purge it may trigger. *)
Lemma get_value now key s :
  fst (get now key s) =
  match JsMap.get key (cache s) with
  | Some e => if expired now e then None else Some (value e)
  | None => None
  end.
Proof.
  unfold get. destruct (JsMap.get key (cache s)) as [e|]; auto.
  now destruct (expired now e).
Qed.

Lemma get_live now key s e :
  JsMap.get key (cache s) = Some e -> expired now e = false ->
  get now key s = (Some (value e), s).
Proof. intros H1 H2. unfold get. now rewrite H1, H2. Qed.

(** After [set] the key holds the new entry, whatever was evicted. *)
Lemma get_after_set now key v ttl s :
  JsMap.get key (cache (set now key v ttl s))
  = Some (mkEntry v (expiry_of now ttl)).
Proof. unfold set. cbn. apply get_set_same. Qed.

Lemma incr_entry now key s :
  JsMap.get key (cache (snd (incr now key s)))
  = Some (mkEntry (Js.toString (fst (incr now key s)))
                  (kept_expiry (JsMap.get key (cache s)))).
Proof. unfold incr. cbn. apply get_set_same. Qed.

Lemma decr_entry now key s :
  JsMap.get key (cache (snd (decr now key s)))
  = Some (mkEntry (Js.toString (fst (decr now key s)))
                  (kept_expiry (JsMap.get key (cache s)))).
Proof. unfold decr. cbn. apply get_set_same. Qed.

(** [incr] and [decr] store without the capacity check of [set]: on a key
    that is not in the map they add an entry, however full the map is. *)
Lemma incr_grows now key s :
  JsMap.get key (cache s) = None ->
  JsMap.size (cache (snd (incr now key s))) = S (JsMap.size (cache s)).
Proof. intros H. unfold incr. cbn. now apply size_set_absent. Qed.

Lemma decr_grows now key s :
  JsMap.get key (cache s) = None ->
  JsMap.size (cache (snd (decr now key s))) = S (JsMap.size (cache s)).
Proof. intros H. unfold decr. cbn. now apply size_set_absent. Qed.

End StoreFacts.

(** ** MemoryCacheService.ttl *)

Section TtlFacts.
Import MemoryCacheService.



End TtlFacts.

(** ** Counters: [incr] and [decr] *)

Section CounterFacts.
Import MemoryCacheService.

Lemma currentValue_unreadable now key s :
  unreadable now key s -> currentValue now (JsMap.get key (cache s)) = 0.
Proof.
  unfold unreadable, currentValue.
  destruct (JsMap.get key (cache s)) as [e|]; auto.
  intros H. now rewrite live_negb_expired, H.
Qed.







End CounterFacts.

(** ** Capacity *)

Section CapacityFacts.
Import MemoryCacheService.

Lemma set_absent_last {V : Type} (k : string) (v : V) (m : JsMap.t V) :
  JsMap.get k m = None -> JsMap.set k v m = (m ++ [(k, v)])%list.
Proof.
  induction m as [|[k' v'] r IH]; cbn; auto.
  destruct (String.eqb k k'); [discriminate|]. intros H. now rewrite IH.
Qed.

Lemma key_of_inj i j : Samples.key_of i = Samples.key_of j -> i = j.
Proof.
  unfold Samples.key_of. cbn [String.append]. intros [= E].
  apply (f_equal Js.parseInt) in E. rewrite !parseInt_toString in E.
  injection E as E. now apply Nat2Z.inj.
Qed.

Lemma get_sample_entries_other k l :
  (forall i, In i l -> Samples.key_of i <> k) ->
  JsMap.get k (sample_entries l) = None.
Proof.
  induction l as [|i l IH]; intros H; [reflexivity|].
  change (JsMap.get k (sample_entries (i :: l)))
    with (if String.eqb k (Samples.key_of i)
          then Some (mkEntry "v" 0)
          else JsMap.get k (sample_entries l)).
  destruct (String.eqb_spec k (Samples.key_of i)) as [E|_].
  - exfalso. apply (H i); [now left|now symmetry].
  - apply IH. intros j Hj. apply H. now right.
Qed.

Lemma filled_succ n :
  Samples.filled (S n)
  = MemoryCacheService.set 0 (Samples.key_of n) "v" None (Samples.filled n).
Proof.
  unfold Samples.filled. rewrite seq_S, fold_left_app. reflexivity.
Qed.

(** While there is room, [n] inserts of distinct keys leave [n] entries,
    oldest first. *)
Lemma filled_cache n :
  (n <= default_maxSize)%nat ->
  cache (Samples.filled n) = sample_entries (seq 0 n)
  /\ maxSize (Samples.filled n) = default_maxSize.
Proof.
  induction n as [|n IH]; intros Hn; [split; reflexivity|].
  destruct IH as [IHc IHm]; [lia|].
  rewrite filled_succ. unfold MemoryCacheService.set, enforce_max_size.
  cbn [cache maxSize with_cache]. split; [|assumption].
  rewrite IHc, IHm.
  replace (default_maxSize <=? JsMap.size (sample_entries (seq 0 n)))%nat
    with false.
  2:{ symmetry. apply Nat.leb_gt. unfold JsMap.size, sample_entries.
      rewrite length_map, length_seq. lia. }
  cbn [andb]. rewrite set_absent_last.
  - rewrite seq_S. unfold sample_entries. now rewrite map_app.
  - apply get_sample_entries_other. intros i Hi E.
    apply key_of_inj in E. apply in_seq in Hi. lia.
Qed.

Lemma fresh_not_sample l : JsMap.get "fresh" (sample_entries l) = None.
Proof. induction l; cbn; auto. Qed.

(** [set] keeps the map within [maxSize], provided the oldest key is not
    the empty string (which [if (firstKey)] takes for no key). *)
Lemma set_within_capacity now key v ttl (s : MemoryCacheService.t) :
  (0 < maxSize s)%nat ->
  (JsMap.size (cache s) <= maxSize s)%nat ->
  (forall k, JsMap.first_key (cache s) = Some k -> Js.truthy_string k = true) ->
  (JsMap.size (cache (MemoryCacheService.set now key v ttl s)) <= maxSize s)%nat.
Proof.
  intros M B K. unfold MemoryCacheService.set, enforce_max_size, JsMap.has.
  cbn [cache maxSize with_cache].
  destruct (JsMap.get key (cache s)) as [e|] eqn:G.
  - rewrite andb_false_r, size_set_present by congruence. exact B.
  - cbn [negb]. rewrite andb_true_r.
    destruct (Nat.leb_spec (maxSize s) (JsMap.size (cache s))) as [L|L].
    + destruct (cache s) as [|[k v0] m] eqn:E.
      * unfold JsMap.size in L. cbn in L. lia.
      * cbn [JsMap.first_key]. rewrite (K k eq_refl).
        assert (k <> key).
        { intros ->. cbn in G. now rewrite String.eqb_refl in G. }
        rewrite size_set_absent by now rewrite get_delete_other.
        pose proof (size_delete_first k v0 m).
        unfold JsMap.size in *. cbn [List.length] in *. lia.
    + rewrite size_set_absent by exact G. lia.
Qed.

(** The map of the service right after its first [maxSize] inserts. *)
Lemma filled_full :
  let s := Samples.filled default_maxSize in
  JsMap.size (cache s) = maxSize s
  /\ JsMap.get "fresh" (cache s) = None
  /\ (0 < maxSize s)%nat
  /\ (forall k, JsMap.first_key (cache s) = Some k -> Js.truthy_string k = true).
Proof.
  cbv zeta. destruct (filled_cache default_maxSize (le_n _)) as [C M].
  rewrite C, M. split; [|split; [|split]].
  - unfold JsMap.size, sample_entries. now rewrite length_map, length_seq.
  - apply fresh_not_sample.
  - unfold default_maxSize. lia.
  - intros k. destruct default_maxSize; [discriminate|].
    cbn [seq sample_entries List.map JsMap.first_key]. intros [= <-]. reflexivity.
Qed.

(** C6, where the code departs from it.  The service as [create] makes it
    ([maxSize] 10000), after 10000 inserts of distinct keys, is full; an
    [incr] of a key that is not in it then stores one entry more than
    [maxSize], where [set] on the same store stays within it. *)
Theorem incr_exceeds_maxSize :
  let s := Samples.filled default_maxSize in
  JsMap.size (cache s) = maxSize s
  /\ JsMap.size (cache (snd (incr 0 "fresh" s))) = S (maxSize s)
  /\ (JsMap.size (cache (MemoryCacheService.set 0 "fresh" "v" None s))
      <= maxSize s)%nat.
Proof.
  cbv zeta. generalize filled_full. cbv zeta.
  generalize (Samples.filled default_maxSize). intros s (F & A & M & K).
  split; [exact F|]. split.
  - rewrite incr_grows by exact A. now rewrite F.
  - apply set_within_capacity; auto. rewrite F. apply le_n.
Qed.

(** The spec's own example of the eviction of [set]: room for two, keys
    [a], [b], [c] in this order. *)
Lemma set_evicts_oldest :
  let s := MemoryCacheService.set 3 "c" "3" None
             (MemoryCacheService.set 2 "b" "2" None
                (MemoryCacheService.set 1 "a" "1" None Samples.small)) in
  JsMap.keys (cache s) = ["b"; "c"]
  /\ fst (get 4 "a" s) = None
  /\ fst (get 4 "b" s) = Some "2"
  /\ fst (get 4 "c" s) = Some "3".
Proof. repeat split. Qed.

(** The same run with [incr] as the third operation keeps all three. *)
Lemma incr_does_not_evict :
  let s := snd (incr 3 "c"
             (MemoryCacheService.set 2 "b" "2" None
                (MemoryCacheService.set 1 "a" "1" None Samples.small))) in
  JsMap.keys (cache s) = ["a"; "b"; "c"] /\ maxSize s = 2%nat.
Proof. repeat split. Qed.

End CapacityFacts.

(** ** The rate limiter over the in-memory store *)

Section RateLimitFacts.
Import MemoryCacheService RateLimitGuard.

Lemma count_of_toString n : count_of (Some (Js.toString n)) = Some n.
Proof. unfold count_of. now rewrite toString_truthy, parseInt_toString. Qed.

Lemma get_unreadable now key s :
  unreadable now key s -> fst (get now key s) = None.
Proof.
  unfold unreadable. rewrite get_value.
  destruct (JsMap.get key (cache s)) as [e|]; auto. now intros ->.
Qed.

(** The decision of [check] on the in-memory store: with the count read
    by the lookup at or over [max] the request is rejected, nothing is
    written after the lookup, and [retryAfter] is the window less the
    remaining TTL; under [max] the request is admitted. *)
Lemma check_decision t_get t_op limits key (s : MemoryCacheService.t) :
  let count := count_of (fst (get t_get key s)) in
  let s1 := snd (get t_get key s) in
  check t_get t_op limits key s =
  if over_limit count limits
  then (Err (rejection limits (window limits - fst (getTTL t_op key s1))),
        Some (setRateLimitHeaders count limits), s1)
  else (Ok true, Some (setRateLimitHeaders count limits),
        if is_zero count
        then setex t_op key (window limits) "1" s1
        else snd (incr t_op key s1)).
Proof.
  cbv zeta. unfold check. cbn [backend_get Memory].
  destruct (get t_get key s) as [current s1]. cbn [fst snd].
  destruct (over_limit (count_of current) limits).
  - unfold getTTL. cbn [backend_ttl Memory fst]. reflexivity.
  - destruct (is_zero (count_of current)).
    + reflexivity.
    + cbn [backend_incr Memory]. now destruct (incr t_op key s1).
Qed.

(** The first request of a window opens it. *)
Lemma check_opens t_get t_op limits key (s : MemoryCacheService.t) :
  unreadable t_get key s -> 0 < max limits -> window limits <> 0 ->
  exists s',
    check t_get t_op limits key s
    = (Ok true, Some (setRateLimitHeaders (Some 0) limits), s')
    /\ counting key (t_op + window limits * 1000) 1 s'.
Proof.
  intros U M W. rewrite check_decision. cbv zeta.
  rewrite (get_unreadable _ _ _ U). cbn [count_of over_limit is_zero].
  replace (max limits <=? 0) with false by (symmetry; apply Z.leb_gt; lia).
  cbn [Z.eqb]. eexists. split; [reflexivity|].
  unfold counting, setex. rewrite get_after_set. unfold expiry_of, Js.truthy_num.
  destruct (Z.eqb_spec (window limits) 0); [contradiction|reflexivity].
Qed.

(** A later request of the window, under the limit, counts one up. *)
Lemma check_counts t_get t_op limits key closes n (s : MemoryCacheService.t) :
  counting key closes n s -> 0 < n < max limits ->
  t_get <= closes -> t_op <= closes ->
  exists s',
    check t_get t_op limits key s
    = (Ok true, Some (setRateLimitHeaders (Some n) limits), s')
    /\ counting key closes (n + 1) s'.
Proof.
  intros C N G O. rewrite check_decision. cbv zeta.
  assert (X : forall t, t <= closes ->
               expired t (mkEntry (Js.toString n) closes) = false).
  { intros t Ht. unfold expired. cbn [expiresAt].
    replace (t >? closes) with false; [apply andb_false_r|].
    symmetry. rewrite Z.gtb_ltb. apply Z.ltb_ge. lia. }
  rewrite (get_live _ _ _ _ C (X _ G)). cbn [fst snd value].
  rewrite count_of_toString. cbn [over_limit is_zero].
  replace (max limits <=? n) with false by (symmetry; apply Z.leb_gt; lia).
  replace (n =? 0)%Z with false by (symmetry; apply Z.eqb_neq; lia).
  eexists. split; [reflexivity|].
  unfold counting. rewrite incr_entry. unfold incr. cbn [fst].
  rewrite C. cbn [currentValue kept_expiry expiresAt value].
  rewrite live_negb_expired, (X _ O). cbn [negb].
  now rewrite parseInt_or_0_toString.
Qed.

(** A request at or over the limit is rejected and leaves the store as it
    was. *)
Lemma check_rejects t_get t_op limits key closes n (s : MemoryCacheService.t) :
  counting key closes n s -> max limits <= n -> t_get <= closes ->
  check t_get t_op limits key s
  = (Err (rejection limits
            (window limits - (if ttl t_op key s >? 0 then ttl t_op key s else 0))),
     Some (setRateLimitHeaders (Some n) limits), s).
Proof.
  intros C N G. rewrite check_decision. cbv zeta.
  assert (X : expired t_get (mkEntry (Js.toString n) closes) = false).
  { unfold expired. cbn [expiresAt].
    replace (t_get >? closes) with false; [apply andb_false_r|].
    symmetry. rewrite Z.gtb_ltb. apply Z.ltb_ge. lia. }
  rewrite (get_live _ _ _ _ C X). cbn [fst snd value].
  rewrite count_of_toString. cbn [over_limit].
  replace (max limits <=? n) with true by (symmetry; apply Z.leb_le; lia).
  unfold getTTL. cbn [backend_ttl Memory fst]. reflexivity.
Qed.

(** The TTL read back within a window of [w] seconds. *)
Lemma ttl_within key closes n w t (s : MemoryCacheService.t) :
  counting key closes n s -> 0 <= w -> closes - w * 1000 <= t ->
  0 <= (if ttl t key s >? 0 then ttl t key s else 0) <= w.
Proof.
  intros C W T. unfold counting in C. unfold ttl. rewrite !C. cbn [expiresAt].
  destruct (negb (Js.truthy_num closes)); [cbn; lia|].
  destruct (Z.gtb_spec ((closes - t) / 1000) 0) as [P|P]; cbv iota.
  - rewrite (proj2 (Z.gtb_lt _ _)) by lia. split; [lia|].
    apply Z.lt_succ_r. apply Z.div_lt_upper_bound; lia.
  - cbn. lia.
Qed.

End RateLimitFacts.

Section RateLimitBoundary.
Import MemoryCacheService RateLimitGuard.



End RateLimitBoundary.

(** ** The cache-aside facade over the in-memory store *)

Section FacadeFacts.
Context {V : Type} {json : JSON V} {laws : JSONLaws V}.
Import CacheService.

Lemma is_null_null : is_null (js_null : V) = true.
Proof. now apply is_null_spec. Qed.

(** [get] of the facade in terms of the lookup in the store. *)
Lemma facade_get now key options (s : MemoryCacheService.t) :
  CacheService.get now key options s
  = (match fst (MemoryCacheService.get now (buildKey key (prefix options)) s) with
     | None => js_null
     | Some str =>
         if negb (Js.truthy_string str) then js_null
         else if serializing options
              then match JSON_parse str with
                   | Some parsed => parsed
                   | None => js_null
                   end
              else js_string str
     end,
     snd (MemoryCacheService.get now (buildKey key (prefix options)) s)).
Proof.
  unfold CacheService.get. cbn [backend_get Memory].
  destruct (MemoryCacheService.get now (buildKey key (prefix options)) s)
    as [[str|] s1]; cbn [fst snd]; auto.
  destruct (negb (Js.truthy_string str)); auto.
  destruct (serializing options); auto.
  now destruct (JSON_parse str).
Qed.

(** [getOrSet] by cases on what [get] found and what the factory did. *)
Lemma getOrSet_cases t_get t_set key (factory : Factory V) options calls
  (s : MemoryCacheService.t) :
  let cached := fst (CacheService.get t_get key options s) in
  let s1 := snd (CacheService.get t_get key options s) in
  getOrSet t_get t_set key factory options calls s
  = if negb (is_null cached) then (Ok cached, calls, s1)
    else match factory calls with
         | Ok v => (Ok v, S calls, snd (CacheService.set t_set key v options s1))
         | Err _ => (factory (S calls), S (S calls), s1)
         end.
Proof.
  cbv zeta. unfold getOrSet.
  destruct (CacheService.get t_get key options s) as [cached s1]. cbn [fst snd].
  destruct (negb (is_null cached)); reflexivity.
Qed.

(** What [set] of the facade leaves in the store. *)
Lemma facade_set_entry now key v options (s : MemoryCacheService.t) :
  JsMap.get (buildKey key (prefix options))
    (MemoryCacheService.cache (snd (CacheService.set now key v options s)))
  = Some (mkEntry (if serializing options then JSON_stringify v else as_string v)
                  (now + ttl_of options * 1000)).
Proof.
  unfold CacheService.set. cbn [backend_setex Memory snd].
  unfold MemoryCacheService.setex.
  rewrite get_after_set. unfold MemoryCacheService.expiry_of.
  replace (Js.truthy_num (ttl_of options)) with true; [reflexivity|].
  unfold ttl_of. destruct (ttl options) as [n|]; [|reflexivity].
  destruct (Js.truthy_num n) eqn:E; [now rewrite E | reflexivity].
Qed.

Lemma not_expired_until now closes str :
  now <= closes -> MemoryCacheService.expired now (mkEntry str closes) = false.
Proof.
  intros H. unfold MemoryCacheService.expired. cbn [expiresAt].
  replace (now >? closes) with false; [apply andb_false_r|].
  symmetry. rewrite Z.gtb_ltb. apply Z.ltb_ge. lia.
Qed.

(** A value stored through the facade reads back until its TTL is over. *)
Lemma facade_get_after_set now later key v options (s : MemoryCacheService.t) :
  serializing options = true ->
  later <= now + ttl_of options * 1000 ->
  fst (CacheService.get later key options
         (snd (CacheService.set now key v options s))) = v.
Proof.
  intros Ser L. rewrite facade_get. cbn [fst]. rewrite get_value.
  rewrite facade_set_entry, Ser, (not_expired_until _ _ _ L). cbn [value].
  now rewrite stringify_truthy, parse_stringify.
Qed.

End FacadeFacts.

(** The sample codec obeys the laws. *)
Section ScalarFacts.

Lemma toString_first_char n c r :
  Js.toString n = String c r -> Js.parseInt (String c r) = Some n.
Proof. intros <-. apply parseInt_toString. Qed.

Lemma unquote_quoted s :
  ScalarJSON.unquote (s ++ String ScalarJSON.quote EmptyString)%string = Some s.
Proof.
  induction s as [|c s IH]; [reflexivity|].
  cbn [String.append]. change (ScalarJSON.unquote (String c ?x))
    with (match x with
          | EmptyString =>
              if Ascii.eqb c ScalarJSON.quote then Some EmptyString else None
          | _ => option_map (String c) (ScalarJSON.unquote x)
          end).
  rewrite IH. destruct s; reflexivity.
Qed.

Lemma scalar_parse_stringify v :
  ScalarJSON.parse (ScalarJSON.stringify v) = Some v.
Proof.
  destruct v as [|n|s]; [reflexivity| |].
  - cbn [ScalarJSON.stringify]. unfold ScalarJSON.parse.
    destruct (String.eqb_spec (Js.toString n) "null") as [E|_].
    { pose proof (parseInt_toString n) as P. rewrite E in P. discriminate P. }
    destruct (Js.toString n) as [|c r] eqn:E.
    { pose proof (toString_truthy n) as T. rewrite E in T. discriminate T. }
    destruct (Ascii.eqb_spec c ScalarJSON.quote) as [->|_].
    { pose proof (toString_first_char n _ _ E) as P. discriminate P. }
    rewrite <- E, parseInt_toString, String.eqb_refl. reflexivity.
  - cbn [ScalarJSON.stringify]. unfold ScalarJSON.parse.
    change (String.eqb (String ScalarJSON.quote ?x) "null") with false.
    cbv iota. rewrite Ascii.eqb_refl, unquote_quoted. reflexivity.
Qed.

#[export] Instance Scalar_JSONLaws : JSONLaws Scalar.
Proof.
  constructor.
  - intros v. destruct v; cbn; split; congruence.
  - exact scalar_parse_stringify.
  - intros v. destruct v; cbn [JSON_stringify Scalar_JSON ScalarJSON.stringify];
      [reflexivity | apply toString_truthy | reflexivity].
Qed.

End ScalarFacts.

Section CacheAside.
Context {V : Type} {json : JSON V} {laws : JSONLaws V}.
Import CacheService.


(** The factory is invoked whenever [get] of the facade answers [null];
    when it throws it is invoked a second time, in the [catch]. *)
Lemma getOrSet_null_invokes t_get t_set key (factory : Factory V) options calls
  (s : MemoryCacheService.t) :
  fst (CacheService.get t_get key options s) = js_null ->
  getOrSet t_get t_set key factory options calls s
  = match factory calls with
    | Ok v =>
        (Ok v, S calls,
         snd (CacheService.set t_set key v options
                (snd (CacheService.get t_get key options s))))
    | Err _ =>
        (factory (S calls), S (S calls),
         snd (CacheService.get t_get key options s))
    end.
Proof.
  intros G. rewrite getOrSet_cases. cbv zeta. now rewrite G, is_null_null.
Qed.

(** A key whose stored string is null-like reads as [null] through the
    facade, expired or not. *)
Lemma reads_null_forever key options (s : MemoryCacheService.t) e :
  JsMap.get (buildKey key (prefix options)) (MemoryCacheService.cache s) = Some e ->
  null_like options (value e) ->
  forall t, fst (CacheService.get t key options s) = js_null.
Proof.
  intros G N t. rewrite facade_get. cbn [fst]. rewrite get_value, G.
  destruct (MemoryCacheService.expired t e); [reflexivity|].
  destruct N as [->|[Ser J]]; [reflexivity|].
  destruct (negb (Js.truthy_string (value e))); [reflexivity|].
  now rewrite Ser, J.
Qed.

Lemma getOrSet_many_null key (factory : Factory V) options :
  serializing options = true ->
  (forall n, factory n = Ok js_null) ->
  forall clock calls (s : MemoryCacheService.t),
    (forall t, fst (CacheService.get t key options s) = js_null) ->
    fst (getOrSet_many clock key factory options calls s)
    = (calls + List.length clock)%nat.
Proof.
  intros Ser F. induction clock as [|[t_get t_set] rest IH]; intros calls s G.
  - cbn. lia.
  - cbn [getOrSet_many List.length].
    rewrite (getOrSet_null_invokes _ _ _ _ _ _ _ (G t_get)), F.
    rewrite IH; [lia|].
    apply (reads_null_forever _ _ _ _ (facade_set_entry _ _ _ _ _)).
    right. rewrite Ser. split; [reflexivity|]. cbn [value]. apply parse_stringify.
Qed.

(** C10.  While the store holds for the key the empty string, or (in the
    serializing mode) a string that parses to [null], [get] of the facade
    answers [null] and [getOrSet] invokes the factory, returning what it
    returns.  That is the state of the key after [null] was cached: until
    the TTL is over the key is populated in the store, with a text that
    parses to [null].  And with a factory that returns [null], however many
    calls of [getOrSet] follow, each of them invokes the factory. *)
Theorem null_is_never_a_hit
  (t_get t_set : Z) (key : string) (factory : Factory V)
  (options : CacheOptions) (calls : nat) (s : MemoryCacheService.t) :
  (forall str,
     populated t_get (buildKey key (prefix options)) str s ->
     null_like options str ->
     fst (CacheService.get t_get key options s) = js_null
     /\ (S calls <= snd (fst (getOrSet t_get t_set key factory options calls s)))%nat
     /\ forall v, factory calls = Ok v ->
                  fst (getOrSet t_get t_set key factory options calls s)
                  = (Ok v, S calls))
  /\ (serializing options = true ->
      forall now later,
        later <= now + ttl_of options * 1000 ->
        let cached := snd (CacheService.set now key js_null options s) in
        exists str,
          populated later (buildKey key (prefix options)) str cached
          /\ null_like options str
          /\ fst (CacheService.get later key options cached) = js_null)
  /\ (serializing options = true ->
      (forall n, factory n = Ok js_null) ->
      forall e clock,
        JsMap.get (buildKey key (prefix options)) (MemoryCacheService.cache s)
        = Some e ->
        null_like options (value e) ->
        fst (getOrSet_many clock key factory options calls s)
        = (calls + List.length clock)%nat).
Proof.
  split; [|split].
  - intros str P H.
    assert (G : fst (CacheService.get t_get key options s) = js_null).
    { rewrite facade_get. cbn [fst]. unfold populated in P. rewrite P.
      destruct H as [->|[Ser J]]; [reflexivity|].
      destruct (negb (Js.truthy_string str)); [reflexivity|].
      now rewrite Ser, J. }
    split; [exact G|]. rewrite (getOrSet_null_invokes _ _ _ _ _ _ _ G).
    destruct (factory calls) as [v|e]; cbn [fst snd].
    + split; [apply le_n|]. now intros v' [= ->].
    + split; [apply le_S, le_n|]. intros v' [=].
  - intros Ser now later L. cbv zeta. exists (JSON_stringify js_null).
    split; [|split].
    + unfold populated. rewrite get_value, facade_set_entry, Ser.
      now rewrite (not_expired_until _ _ _ L).
    + right. split; [exact Ser | apply parse_stringify].
    + now apply facade_get_after_set.
  - intros Ser F e clock G N. apply getOrSet_many_null; auto.
    now apply (reads_null_forever key options s e).
Qed.

End CacheAside.

Section CacheAsideExamples.
Import CacheService.



Lemma null_is_never_a_hit_witness :
  let s := snd (CacheService.set 0 "board" SNull no_options MemoryCacheService.create) in
  populated 1 "board" "null" s
  /\ fst (CacheService.get 1 "board" no_options s) = SNull
  /\ fst (getOrSet 1 2 "board" (Samples.constant SNull) no_options 0 s)
     = (Ok SNull, 1%nat).
Proof.
  cbv zeta.
  pose proof (null_is_never_a_hit 1 2 "board" (Samples.constant SNull)
                no_options 0
                (snd (CacheService.set 0 "board" SNull no_options MemoryCacheService.create)))
    as [A _].
  assert (P : populated 1 "board" "null"
                (snd (CacheService.set 0 "board" SNull no_options MemoryCacheService.create)))
    by reflexivity.
  destruct (A "null"%string P (or_intror (conj eq_refl eq_refl))) as (G & _ & R).
  split; [exact P|]. split; [exact G|]. exact (R SNull eq_refl).
Defined.

(** Three calls in a row on a key that caches [null]: three invocations. *)
Lemma null_is_recomputed_each_time :
  let s := snd (CacheService.set 0 "board" SNull no_options MemoryCacheService.create) in
  fst (getOrSet_many [(1, 2); (3, 4); (5, 6)] "board" (Samples.constant SNull)
         no_options 0 s) = 3%nat.
Proof. reflexivity. Qed.

(** C7, where the code departs from it: on a miss with a factory that
    throws, the [catch] of [getOrSet] invokes the factory a second time.
    With a factory that throws once and then returns 42 the caller gets 42
    and no error; with one that always throws, the error the caller gets
    is the one of the second invocation. *)
Theorem getOrSet_reinvokes_throwing_factory :
  fst (CacheService.get 0 "board" no_options MemoryCacheService.create) = SNull
  /\ getOrSet 0 0 "board" Samples.flaky no_options 0 MemoryCacheService.create
     = (Ok (SInt 42), 2%nat, MemoryCacheService.create)
  /\ getOrSet 0 0 "board" Samples.failing no_options 0 MemoryCacheService.create
     = (Samples.failing 1%nat, 2%nat, MemoryCacheService.create).
Proof. repeat split. Qed.

End CacheAsideExamples.

(** ** The token blacklist *)

Section BlacklistFacts.
Import TokenBlacklistService.




End BlacklistFacts.

(** ** The leaderboard *)

Section LeaderboardFacts.
Import LeaderboardsRepository.

Lemma precedes_spec a b : precedes a b = true <-> ranks_before a b.
Proof.
  unfold precedes, ranks_before. cbv zeta.
  rewrite !orb_true_iff, !andb_true_iff, !orb_true_iff, !andb_true_iff.
  rewrite !Z.ltb_lt, !Z.eqb_eq, Qle_bool_iff. reflexivity.
Qed.

Lemma ranks_before_total a b : ranks_before a b \/ ranks_before b a.
Proof.
  unfold ranks_before. cbv zeta.
  destruct (Z.lt_trichotomy (totalScore a) (totalScore b)) as [?|[E|?]];
    [right; now left | | left; now left].
  destruct (Z.lt_trichotomy (approvedSubmissions a) (approvedSubmissions b))
    as [?|[E'|?]];
    [right; right; split; auto | | left; right; split; auto].
  destruct (Qlt_le_dec (averageScore a) (averageScore b)) as [L|L].
  - right. right. split; [auto|]. right. split; [auto|]. now apply Qlt_le_weak.
  - left. right. split; [auto|]. right. split; auto.
Qed.

Lemma ranks_before_trans a b c :
  ranks_before a b -> ranks_before b c -> ranks_before a c.
Proof.
  unfold ranks_before. cbv zeta.
  intros [?|[E1 [?|[E2 Q1]]]] [?|[E3 [?|[E4 Q2]]]];
    try (left; lia); try (right; split; [lia|]; left; lia).
  right. split; [lia|]. right. split; [lia|]. now apply Qle_trans with (averageScore b).
Qed.

Lemma Forall_insert (P : LeaderboardEntry -> Prop) a l :
  P a -> Forall P l -> Forall P (insert a l).
Proof.
  intros Pa. induction 1 as [|b r Pb Fr IH]; cbn; [now constructor|].
  destruct (precedes a b); repeat constructor; auto.
Qed.

Lemma insert_sorted a l :
  StronglySorted ranks_before l -> StronglySorted ranks_before (insert a l).
Proof.
  induction 1 as [|b r Sr IH Fb]; cbn; [repeat constructor|].
  destruct (precedes a b) eqn:E.
  - apply precedes_spec in E. constructor; [now constructor|].
    constructor; [exact E|].
    eapply Forall_impl; [|exact Fb]. intros c. now apply ranks_before_trans.
  - constructor; [exact IH|]. apply Forall_insert; [|exact Fb].
    destruct (ranks_before_total a b) as [H|H]; [|exact H].
    apply precedes_spec in H. congruence.
Qed.

Lemma order_by_sorted l : StronglySorted ranks_before (order_by l).
Proof.
  induction l; cbn; [constructor|]. now apply insert_sorted.
Qed.

(** [assign_ranks] touches the rank alone: the keys of the order stay. *)
Lemma assign_ranks_keys i l :
  List.map (fun e => (totalScore e, approvedSubmissions e, averageScore e))
    (assign_ranks i l)
  = List.map (fun e => (totalScore e, approvedSubmissions e, averageScore e)) l.
Proof. revert i. induction l; intros i; cbn; [|rewrite IHl]; reflexivity. Qed.

Lemma assign_ranks_Forall a l j :
  Forall (ranks_before a) l -> Forall (ranks_before a) (assign_ranks j l).
Proof.
  intros F. revert j. induction F as [|b r Rb Fr IH]; intros j;
    cbn [assign_ranks]; [constructor | constructor; [exact Rb | apply IH]].
Qed.

Lemma assign_ranks_sorted i l :
  StronglySorted ranks_before l -> StronglySorted ranks_before (assign_ranks i l).
Proof.
  intros H. revert i. induction H as [|a l Sl IH Fa]; intros i;
    cbn [assign_ranks]; constructor; [apply IH|].
  exact (assign_ranks_Forall a l (i + 1) Fa).
Qed.

Lemma assign_ranks_rank i l :
  List.map rank (assign_ranks i l)
  = List.map (fun k => i + Z.of_nat k + 1) (seq 0 (List.length l)).
Proof.
  revert i. induction l as [|a l IH]; intros i; [reflexivity|].
  cbn [assign_ranks List.map List.length seq rank]. f_equal; [cbn; lia|].
  rewrite IH, <- seq_shift, map_map. apply map_ext. intros k. lia.
Qed.

Lemma positions_increase i n :
  StronglySorted Z.lt (List.map (fun k => Z.of_nat k + 1) (seq i n)).
Proof.
  revert i. induction n as [|n IH]; intros i; cbn; constructor; auto.
  apply Forall_forall. intros x Hx. apply in_map_iff in Hx.
  destruct Hx as (k & <- & Hk). apply in_seq in Hk. lia.
Qed.

(** C3.  Whatever the data and the time range, the leaderboard is sorted
    by total score, then approved submissions, then average score, each
    descending; the rank of the entry at position [i] (from 0) is [i + 1],
    so the ranks increase strictly down the list and no two entries share
    one.  On the spec's example, two users with 100 points of which [U2]
    has more approved submissions, [U2] gets rank 1 and [U1] rank 2. *)
Theorem leaderboard_order_and_ranks :
  (forall now db timeRange,
     let board := calculateOverallLeaderboard now db timeRange in
     StronglySorted ranks_before board
     /\ List.map rank board
        = List.map (fun i => Z.of_nat i + 1) (seq 0 (List.length board))
     /\ StronglySorted Z.lt (List.map rank board)
     /\ NoDup (List.map rank board))
  /\ List.map (fun e => (userId e, totalScore e, approvedSubmissions e, rank e))
       (calculateOverallLeaderboard 0 Samples.tie None)
     = [("U2"%string, 100, 3, 1); ("U1"%string, 100, 2, 2)].
Proof.
  split; [|reflexivity].
  intros now db timeRange board.
  assert (R : List.map rank board
              = List.map (fun i => Z.of_nat i + 1) (seq 0 (List.length board))).
  { unfold board, calculateOverallLeaderboard. rewrite assign_ranks_rank.
    replace (List.length (assign_ranks 0 (query db (getDateFilter now timeRange))))
      with (List.length (query db (getDateFilter now timeRange))).
    - apply map_ext. intros k. lia.
    - rewrite <- (length_map rank (assign_ranks _ _)), assign_ranks_rank.
      now rewrite length_map, length_seq. }
  assert (I : StronglySorted Z.lt (List.map rank board))
    by (rewrite R; apply positions_increase).
  repeat split; auto.
  - apply assign_ranks_sorted, order_by_sorted.
  - clear R. induction I as [|x l _ IH F]; constructor; auto.
    intros Hin. rewrite Forall_forall in F. specialize (F x Hin). lia.
Qed.

(** C4, where the code departs from it: [SUM(s.score)] runs over every
    submission of the user, so the 30 points of a rejected submission are
    in the total (110).  The counts and the average are as the claim has
    them: 2 submissions, 1 approved, average 80. *)
Theorem totalScore_includes_rejected :
  List.map (fun e => (userId e, totalScore e, totalSubmissions e,
                      approvedSubmissions e, averageScore e))
    (calculateOverallLeaderboard 0 Samples.rejected_with_score None)
  = [("U1"%string, 110, 2, 1, 80%Q)].
Proof. reflexivity. Qed.

End LeaderboardFacts.

(* ================================================================== *)
(** * Further properties of the store *)

Section JsMapKeys.
Context {V : Type}.
Implicit Types (m : JsMap.t V) (k : string) (v : V).

Lemma get_none_not_in k m : JsMap.get k m = None <-> ~ In k (JsMap.keys m).
Proof.
  induction m as [|[k' v'] r IH]; cbn; [tauto|].
  destruct (String.eqb_spec k k') as [->|N]; split; intros H.
  - discriminate.
  - exfalso. apply H. now left.
  - intros [E|I]; [congruence|]. now apply IH in H.
  - apply IH. intros I. apply H. now right.
Qed.

Lemma keys_set_present k v m :
  JsMap.get k m <> None -> JsMap.keys (JsMap.set k v m) = JsMap.keys m.
Proof.
  unfold JsMap.keys. induction m as [|[k' v'] r IH]; cbn; [congruence|].
  destruct (String.eqb_spec k k') as [->|N]; cbn; [reflexivity|].
  intros H. now rewrite IH.
Qed.

Lemma keys_set_absent k v m :
  JsMap.get k m = None -> JsMap.keys (JsMap.set k v m) = JsMap.keys m ++ [k].
Proof. intros H. rewrite (set_absent_last k v m H). unfold JsMap.keys. now rewrite map_app. Qed.

Lemma keys_delete k m :
  JsMap.keys (JsMap.delete k m)
  = filter (fun k' => negb (String.eqb k k')) (JsMap.keys m).
Proof.
  unfold JsMap.keys. induction m as [|[k' v'] r IH]; cbn; [reflexivity|].
  destruct (String.eqb k k'); cbn; now rewrite IH.
Qed.

Lemma NoDup_filter {A : Type} (f : A -> bool) (l : list A) :
  NoDup l -> NoDup (filter f l).
Proof.
  induction 1 as [|x l N _ IH]; cbn; [constructor|].
  destruct (f x); [constructor|]; auto.
  intros I. apply filter_In in I. tauto.
Qed.

Lemma NoDup_keys_delete k m :
  NoDup (JsMap.keys m) -> NoDup (JsMap.keys (JsMap.delete k m)).
Proof. intros H. rewrite keys_delete. now apply NoDup_filter. Qed.

Lemma NoDup_keys_set k v m :
  NoDup (JsMap.keys m) -> NoDup (JsMap.keys (JsMap.set k v m)).
Proof.
  intros H. destruct (JsMap.get k m) eqn:G.
  - rewrite keys_set_present; [exact H | congruence].
  - rewrite keys_set_absent by exact G.
    apply NoDup_app; [exact H | repeat constructor; auto |].
    intros x I [<-|[]]. now apply get_none_not_in in G.
Qed.

Lemma delete_absent k m : JsMap.get k m = None -> JsMap.delete k m = m.
Proof.
  induction m as [|[k' v'] r IH]; cbn; [reflexivity|].
  destruct (String.eqb k k'); [discriminate|]. intros H. now rewrite IH.
Qed.

Lemma size_delete_present k m :
  NoDup (JsMap.keys m) -> JsMap.get k m <> None ->
  S (JsMap.size (JsMap.delete k m)) = JsMap.size m.
Proof.
  unfold JsMap.size. induction m as [|[k' v'] r IH]; cbn; [congruence|].
  intros N G. inversion N as [|? ? Nk Nr]; subst.
  destruct (String.eqb_spec k k') as [->|Ne].
  - rewrite delete_absent; [reflexivity|]. now apply get_none_not_in.
  - cbn. now rewrite IH.
Qed.

End JsMapKeys.

Section StoreRoundTrips.
Import MemoryCacheService.

Lemma expired_after now closes str :
  closes <> 0 -> closes < now -> expired now (mkEntry str closes) = true.
Proof.
  intros N L. unfold expired, Js.truthy_num. cbn [expiresAt].
  rewrite (proj2 (Z.eqb_neq closes 0) N). cbn [negb andb].
  apply Z.gtb_lt. lia.
Qed.

Lemma never_expires now str : expired now (mkEntry str 0) = false.
Proof. reflexivity. Qed.

(** X1.  What [set] stored is what [get] answers: at any time when the TTL
    was omitted or 0; with a TTL of [n > 0] seconds, until [n] seconds later
    inclusive, and from then on [get] answers [null] and drops the entry. *)
Theorem set_then_get (now : Z) (key v : string) (s : MemoryCacheService.t) :
  (forall ttl later,
     ttl = None \/ ttl = Some 0 ->
     fst (get later key (MemoryCacheService.set now key v ttl s)) = Some v)
  /\ (forall n later,
        0 <= now -> 0 < n ->
        let stored := MemoryCacheService.set now key v (Some n) s in
        (later <= now + n * 1000 -> fst (get later key stored) = Some v)
        /\ (now + n * 1000 < later ->
            fst (get later key stored) = None
            /\ JsMap.get key (cache (snd (get later key stored))) = None)).
Proof.
  split.
  - intros ttl later H. rewrite get_value, get_after_set.
    replace (expiry_of now ttl) with 0 by (destruct H as [->| ->]; reflexivity).
    reflexivity.
  - intros n later Hnow Hn stored.
    assert (E : JsMap.get key (cache stored) = Some (mkEntry v (now + n * 1000))).
    { unfold stored. rewrite get_after_set. unfold expiry_of, Js.truthy_num.
      rewrite (proj2 (Z.eqb_neq n 0)) by lia. reflexivity. }
    split; intros L.
    + rewrite get_value, E, not_expired_until by exact L. reflexivity.
    + unfold get. rewrite E, expired_after by lia. cbn [fst snd cache with_cache].
      split; [reflexivity | apply get_delete_same].
Qed.

Lemma set_then_get_witness :
  fst (get 61000 "k" (MemoryCacheService.set 1000 "k" "v" (Some 60) create))
  = Some "v"%string
  /\ fst (get 61001 "k" (MemoryCacheService.set 1000 "k" "v" (Some 60) create))
     = None
  /\ fst (get 61001 "k" (MemoryCacheService.set 1000 "k" "v" None create))
     = Some "v"%string.
Proof.
  destruct (set_then_get 1000 "k" "v" create) as [A B].
  destruct (B 60 61000 ltac:(lia) ltac:(lia)) as [B1 _].
  destruct (B 60 61001 ltac:(lia) ltac:(lia)) as [_ B2].
  split; [apply B1; lia|]. split; [apply B2; lia|].
  apply (A None 61001). now left.
Defined.

(** What [set] leaves alone and what it evicts. *)
Lemma frame_of_set (now : Z) (key v : string) (ttl : option Z)
  (s : MemoryCacheService.t) :
  (forall other,
     other <> key ->
     JsMap.get other (cache (MemoryCacheService.set now key v ttl s))
     = match evicted_by_set key s with
       | Some oldest => if String.eqb oldest other then None
                        else JsMap.get other (cache s)
       | None => JsMap.get other (cache s)
       end)
  /\ (forall oldest, evicted_by_set key s = Some oldest ->
        JsMap.first_key (cache s) = Some oldest
        /\ JsMap.size (cache s) >= maxSize s)%nat
  /\ (unique_keys s ->
      JsMap.size (cache (MemoryCacheService.set now key v ttl s))
      = if JsMap.has key (cache s) then JsMap.size (cache s)
        else match evicted_by_set key s with
             | Some _ => JsMap.size (cache s)
             | None => S (JsMap.size (cache s))
             end).
Proof.
  assert (C : enforce_max_size key s
              = match evicted_by_set key s with
                | Some oldest => JsMap.delete oldest (cache s)
                | None => cache s
                end).
  { unfold enforce_max_size, evicted_by_set.
    destruct ((maxSize s <=? JsMap.size (cache s))%nat
              && negb (JsMap.has key (cache s))); [|reflexivity].
    destruct (JsMap.first_key (cache s)) as [fk|]; [|reflexivity].
    now destruct (Js.truthy_string fk). }
  split; [|split].
  - intros other N. unfold MemoryCacheService.set. cbn [cache with_cache].
    rewrite get_set_other by congruence. rewrite C.
    destruct (evicted_by_set key s) as [oldest|]; [|reflexivity].
    destruct (String.eqb_spec oldest other) as [->|Ne].
    + apply get_delete_same.
    + now apply get_delete_other.
  - intros oldest. unfold evicted_by_set.
    destruct (Nat.leb_spec (maxSize s) (JsMap.size (cache s))); cbn [andb];
      [|discriminate].
    destruct (negb (JsMap.has key (cache s))); [|discriminate].
    destruct (JsMap.first_key (cache s)) as [fk|]; [|discriminate].
    destruct (Js.truthy_string fk); [|discriminate].
    intros [= ->]. split; [reflexivity | lia].
  - intros U. unfold MemoryCacheService.set. cbn [cache with_cache]. rewrite C.
    unfold JsMap.has. destruct (JsMap.get key (cache s)) as [e|] eqn:G.
    + assert (Ev : evicted_by_set key s = None).
      { unfold evicted_by_set, JsMap.has. rewrite G. now rewrite andb_false_r. }
      rewrite Ev. apply size_set_present. congruence.
    + destruct (evicted_by_set key s) as [oldest|] eqn:Ev.
      * assert (F : JsMap.first_key (cache s) = Some oldest).
        { revert Ev. unfold evicted_by_set.
          destruct (_ && _); [|discriminate].
          destruct (JsMap.first_key (cache s)) as [fk|]; [|discriminate].
          destruct (Js.truthy_string fk); [|discriminate]. congruence. }
        assert (P : JsMap.get oldest (cache s) <> None).
        { destruct (cache s) as [|[k0 v0] r]; [discriminate|].
          injection F as ->. cbn. now rewrite String.eqb_refl. }
        assert (Ne : oldest <> key) by (intros ->; contradiction).
        rewrite size_set_absent by (rewrite get_delete_other; auto).
        now apply size_delete_present.
      * now apply size_set_absent.
Qed.

(** X2.  [set] touches no other key, but for the one it evicts: when the
    map is full and the key is new, the oldest key (if it is not the empty
    string) is dropped, and only that one.  With distinct keys the size
    grows by one exactly when the key is new and nothing was evicted. *)
Theorem set_other_keys (now : Z) (key v : string) (ttl : option Z)
  (s : MemoryCacheService.t) :
  (forall other,
     other <> key ->
     JsMap.get other (cache (MemoryCacheService.set now key v ttl s))
     = match evicted_by_set key s with
       | Some oldest => if String.eqb oldest other then None
                        else JsMap.get other (cache s)
       | None => JsMap.get other (cache s)
       end)
  /\ (forall oldest, evicted_by_set key s = Some oldest ->
        JsMap.first_key (cache s) = Some oldest
        /\ JsMap.size (cache s) >= maxSize s)%nat
  /\ (unique_keys s ->
      JsMap.size (cache (MemoryCacheService.set now key v ttl s))
      = if JsMap.has key (cache s) then JsMap.size (cache s)
        else match evicted_by_set key s with
             | Some _ => JsMap.size (cache s)
             | None => S (JsMap.size (cache s))
             end).
Proof. exact (frame_of_set now key v ttl s). Qed.

Lemma set_other_keys_witness :
  let s := MemoryCacheService.set 2 "b" "2" None
             (MemoryCacheService.set 1 "a" "1" None Samples.small) in
  unique_keys s
  /\ JsMap.size (cache (MemoryCacheService.set 3 "c" "3" None s)) = 2%nat
  /\ JsMap.get "b" (cache (MemoryCacheService.set 3 "c" "3" None s))
     = Some (mkEntry "2" 0).
Proof.
  cbv zeta.
  set (s := MemoryCacheService.set 2 "b" "2" None
              (MemoryCacheService.set 1 "a" "1" None Samples.small)).
  assert (U : unique_keys s).
  { unfold unique_keys. cbn. repeat constructor; cbn; intuition discriminate. }
  destruct (set_other_keys 3 "c" "3" None s) as (A & _ & B).
  split; [exact U|]. split; [exact (B U)|].
  exact (A "b"%string ltac:(discriminate)).
Defined.

End StoreRoundTrips.

Section StoreRemovals.
Import MemoryCacheService.

Lemma del_cache key s : cache (snd (del key s)) = JsMap.delete key (cache s).
Proof.
  unfold del, JsMap.has. destruct (JsMap.get key (cache s)) eqn:G; cbn.
  - reflexivity.
  - symmetry. now apply delete_absent.
Qed.

Lemma del_count key s :
  fst (del key s) = if JsMap.has key (cache s) then 1 else 0.
Proof. unfold del. now destruct (JsMap.has key (cache s)). Qed.

Lemma unique_keys_del key s : unique_keys s -> unique_keys (snd (del key s)).
Proof. unfold unique_keys. rewrite del_cache. apply NoDup_keys_delete. Qed.

Lemma delMultiple_step key rest s :
  delMultiple (key :: rest) s
  = (fst (del key s) + fst (delMultiple rest (snd (del key s))),
     snd (delMultiple rest (snd (del key s)))).
Proof.
  cbn [delMultiple]. destruct (del key s) as [d s1]. cbn [fst snd].
  now destruct (delMultiple rest s1).
Qed.

Lemma delMultiple_get keys : forall s k,
  JsMap.get k (cache (snd (delMultiple keys s)))
  = if existsb (String.eqb k) keys then None else JsMap.get k (cache s).
Proof.
  induction keys as [|key rest IH]; intros s k; [reflexivity|].
  rewrite delMultiple_step. cbn [snd existsb]. rewrite IH, del_cache.
  destruct (existsb (String.eqb k) rest); [now rewrite orb_true_r|].
  rewrite orb_false_r. destruct (String.eqb_spec k key) as [->|N].
  - apply get_delete_same.
  - apply get_delete_other. congruence.
Qed.

Lemma unique_keys_delMultiple keys : forall s,
  unique_keys s -> unique_keys (snd (delMultiple keys s)).
Proof.
  induction keys as [|key rest IH]; intros s U; [exact U|].
  rewrite delMultiple_step. cbn [snd]. apply IH. now apply unique_keys_del.
Qed.

Lemma delMultiple_size keys : forall s,
  unique_keys s ->
  Z.of_nat (JsMap.size (cache s))
  = Z.of_nat (JsMap.size (cache (snd (delMultiple keys s))))
    + fst (delMultiple keys s).
Proof.
  induction keys as [|key rest IH]; intros s U; [cbn; lia|].
  rewrite delMultiple_step. cbn [fst snd].
  pose proof (IH _ (unique_keys_del key s U)) as R.
  rewrite del_cache in R. rewrite del_count. unfold JsMap.has.
  destruct (JsMap.get key (cache s)) eqn:G.
  - pose proof (size_delete_present key (cache s) U) as D.
    rewrite G in D. specialize (D ltac:(discriminate)). lia.
  - rewrite delete_absent in R by exact G. lia.
Qed.

(** What [delMultiple] removes and what it counts. *)
Lemma frame_of_delMultiple (keys : list string) (s : MemoryCacheService.t) :
  (forall k, In k keys ->
             JsMap.get k (cache (snd (delMultiple keys s))) = None)
  /\ (forall k, ~ In k keys ->
                JsMap.get k (cache (snd (delMultiple keys s)))
                = JsMap.get k (cache s))
  /\ (unique_keys s ->
      fst (delMultiple keys s)
      = Z.of_nat (JsMap.size (cache s))
        - Z.of_nat (JsMap.size (cache (snd (delMultiple keys s))))).
Proof.
  split; [|split].
  - intros k I. rewrite delMultiple_get.
    replace (existsb (String.eqb k) keys) with true; [reflexivity|].
    symmetry. apply existsb_exists. exists k. split; [exact I|apply String.eqb_refl].
  - intros k N. rewrite delMultiple_get.
    destruct (existsb (String.eqb k) keys) eqn:E; [|reflexivity].
    apply existsb_exists in E. destruct E as (x & I & E).
    apply String.eqb_eq in E. subst x. contradiction.
  - intros U. pose proof (delMultiple_size keys s U). lia.
Qed.

(** X3.  [delMultiple] removes every listed key, expired or not, and no
    other; with distinct keys in the map, the number it returns is the
    number of entries that went, however often a key is listed. *)
Theorem delMultiple_removes (keys : list string) (s : MemoryCacheService.t) :
  (forall k, In k keys ->
             JsMap.get k (cache (snd (delMultiple keys s))) = None)
  /\ (forall k, ~ In k keys ->
                JsMap.get k (cache (snd (delMultiple keys s)))
                = JsMap.get k (cache s))
  /\ (unique_keys s ->
      fst (delMultiple keys s)
      = Z.of_nat (JsMap.size (cache s))
        - Z.of_nat (JsMap.size (cache (snd (delMultiple keys s))))).
Proof. exact (frame_of_delMultiple keys s). Qed.

Lemma delMultiple_removes_witness :
  let s := MemoryCacheService.set 2 "b" "2" None
             (MemoryCacheService.set 1 "a" "1" (Some 1) create) in
  unique_keys s
  /\ fst (delMultiple ["a"%string; "zz"%string; "a"%string] s) = 1
  /\ JsMap.get "a" (cache (snd (delMultiple ["a"%string; "zz"%string; "a"%string] s)))
     = None.
Proof.
  cbv zeta.
  set (s := MemoryCacheService.set 2 "b" "2" None
              (MemoryCacheService.set 1 "a" "1" (Some 1) create)).
  assert (U : unique_keys s).
  { unfold unique_keys. cbn. repeat constructor; cbn; intuition discriminate. }
  destruct (delMultiple_removes ["a"%string; "zz"%string; "a"%string] s)
    as (A & _ & C).
  split; [exact U|]. split; [rewrite (C U); reflexivity|].
  apply A. now left.
Defined.

(** X4.  [expire] does not look at the old expiry: it answers [false] only
    for a key that is not in the map, and an entry that had expired but was
    not purged is readable again, with its old value, until the new TTL is
    over. *)
Theorem expire_revives (now : Z) (key : string) (ttl : Z)
  (s : MemoryCacheService.t) :
  (JsMap.get key (cache s) = None -> expire now key ttl s = (false, s))
  /\ (forall e later,
        JsMap.get key (cache s) = Some e ->
        later <= now + ttl * 1000 ->
        fst (expire now key ttl s) = true
        /\ fst (get later key (snd (expire now key ttl s))) = Some (value e)).
Proof.
  split.
  - intros G. unfold expire. now rewrite G.
  - intros e later G L. unfold expire. rewrite G. cbn [fst snd].
    split; [reflexivity|]. rewrite get_value. cbn [cache with_cache].
    rewrite get_set_same, not_expired_until by exact L. reflexivity.
Qed.

Lemma expire_revives_witness :
  let stale := MemoryCacheService.set 0 "k" "v" (Some 1) create in
  fst (get 5000 "k" stale) = None
  /\ fst (get 6000 "k" (snd (expire 5000 "k" 10 stale))) = Some "v"%string.
Proof.
  cbv zeta. split; [reflexivity|].
  destruct (expire_revives 5000 "k" 10
              (MemoryCacheService.set 0 "k" "v" (Some 1) create)) as [_ R].
  exact (proj2 (R (mkEntry "v" 1000) 6000 eq_refl ltac:(lia))).
Defined.

End StoreRemovals.

Section StoreSweep.
Import MemoryCacheService.

Lemma expired_mono now later e :
  now <= later -> expired now e = true -> expired later e = true.
Proof.
  unfold expired. intros L H. apply andb_true_iff in H. destruct H as [T G].
  rewrite T. cbn [andb]. apply Z.gtb_lt in G. apply Z.gtb_lt. lia.
Qed.

Lemma get_filter {V : Type} (f : string * V -> bool) k (m : JsMap.t V) :
  NoDup (JsMap.keys m) ->
  JsMap.get k (filter f m)
  = match JsMap.get k m with
    | Some v => if f (k, v) then Some v else None
    | None => None
    end.
Proof.
  unfold JsMap.keys. induction m as [|[k' v'] r IH]; cbn; [reflexivity|].
  intros N. inversion N as [|? ? Nk Nr]; subst.
  destruct (String.eqb_spec k k') as [->|Ne].
  - destruct (f (k', v')) eqn:F; cbn; [now rewrite String.eqb_refl|].
    rewrite IH by exact Nr.
    replace (JsMap.get k' r) with (@None V); [reflexivity|].
    symmetry. now apply get_none_not_in.
  - destruct (f (k', v')); cbn; [|now apply IH].
    destruct (String.eqb_spec k k'); [contradiction|now apply IH].
Qed.

Lemma keys_filter_NoDup {V : Type} (f : string * V -> bool) (m : JsMap.t V) :
  NoDup (JsMap.keys m) -> NoDup (JsMap.keys (filter f m)).
Proof.
  unfold JsMap.keys. induction m as [|[k v] r IH]; cbn; [constructor|].
  intros N. inversion N as [|? ? Nk Nr]; subst.
  destruct (f (k, v)); cbn; [constructor|]; auto.
  intros I. apply Nk. apply in_map_iff in I. destruct I as ([k1 v1] & E & I).
  apply filter_In in I. apply in_map_iff. exists (k1, v1). tauto.
Qed.

(** X5.  The sweep and the lazy expiry of [get] agree: after
    [cleanupExpired] every key reads as it read before, now and at any
    later time; what the sweep left has not expired; and nothing was
    added. *)
Theorem cleanup_agrees_with_get (now : Z) (s : MemoryCacheService.t) :
  unique_keys s ->
  (forall later key,
     now <= later ->
     fst (get later key (cleanupExpired now s)) = fst (get later key s))
  /\ (forall key e,
        JsMap.get key (cache (cleanupExpired now s)) = Some e ->
        expired now e = false /\ JsMap.get key (cache s) = Some e)
  /\ (JsMap.size (cache (cleanupExpired now s)) <= JsMap.size (cache s))%nat.
Proof.
  intros U. unfold cleanupExpired. cbn [cache with_cache]. split; [|split].
  - intros later key L. rewrite !get_value. cbn [cache with_cache].
    rewrite get_filter by exact U. cbn [snd].
    destruct (JsMap.get key (cache s)) as [e|]; [|reflexivity].
    destruct (expired now e) eqn:X; cbn [negb]; [|reflexivity].
    now rewrite (expired_mono now later e L X).
  - intros key e. rewrite get_filter by exact U. cbn [snd].
    destruct (JsMap.get key (cache s)) as [e'|]; [|discriminate].
    destruct (expired now e') eqn:X; cbn [negb]; [discriminate|].
    now intros [= <-].
  - unfold JsMap.size. apply filter_length_le.
Qed.

Lemma cleanup_agrees_with_get_witness :
  let s := MemoryCacheService.set 2 "b" "2" None
             (MemoryCacheService.set 1 "a" "1" (Some 1) create) in
  unique_keys s
  /\ JsMap.keys (cache (cleanupExpired 5000 s)) = ["b"%string]
  /\ fst (get 6000 "a" (cleanupExpired 5000 s)) = fst (get 6000 "a" s).
Proof.
  cbv zeta.
  set (s := MemoryCacheService.set 2 "b" "2" None
              (MemoryCacheService.set 1 "a" "1" (Some 1) create)).
  assert (U : unique_keys s).
  { unfold unique_keys. cbn. repeat constructor; cbn; intuition discriminate. }
  split; [exact U|]. split; [reflexivity|].
  exact (proj1 (cleanup_agrees_with_get 5000 s U) 6000 "a"%string ltac:(lia)).
Defined.

(** X6.  A counter that [incr] or [decr] writes over an expired entry keeps
    the expiry that is over: the call answers 1 (or 0), and the key stays
    unreadable, then and later. *)
Theorem counter_on_expired_stays_expired (now later : Z) (key : string)
  (s : MemoryCacheService.t) (e : CacheEntry) :
  JsMap.get key (cache s) = Some e -> expired now e = true -> now <= later ->
  fst (incr now key s) = 1
  /\ fst (get later key (snd (incr now key s))) = None
  /\ fst (decr now key s) = 0
  /\ fst (get later key (snd (decr now key s))) = None.
Proof.
  intros G X L.
  assert (U : unreadable now key s) by (unfold unreadable; now rewrite G).
  assert (C : currentValue now (JsMap.get key (cache s)) = 0)
    by now apply currentValue_unreadable.
  assert (X' : forall str, expired later (mkEntry str (expiresAt e)) = true).
  { intros str. apply (expired_mono now later); [exact L|].
    revert X. unfold expired. now cbn [expiresAt]. }
  repeat split.
  - unfold incr. cbn [fst]. now rewrite C.
  - rewrite get_value, incr_entry, G. cbn [kept_expiry]. now rewrite X'.
  - unfold decr. cbn [fst]. now rewrite C.
  - rewrite get_value, decr_entry, G. cbn [kept_expiry]. now rewrite X'.
Qed.

Lemma counter_on_expired_stays_expired_witness :
  let stale := MemoryCacheService.setex 0 "hits" 60 "5" create in
  fst (incr 60001 "hits" stale) = 1
  /\ fst (get 60002 "hits" (snd (incr 60001 "hits" stale))) = None.
Proof.
  cbv zeta.
  destruct (counter_on_expired_stays_expired 60001 60002 "hits"
              (MemoryCacheService.setex 0 "hits" 60 "5" create)
              (mkEntry "5" 60000) eq_refl eq_refl ltac:(lia)) as (A & B & _).
  split; [exact A | exact B].
Defined.

End StoreSweep.

Section StoreCapacity.
Import MemoryCacheService.

Lemma get_some_in {V : Type} k (m : JsMap.t V) v :
  JsMap.get k m = Some v -> In k (JsMap.keys m).
Proof.
  intros G. destruct (in_dec string_dec k (JsMap.keys m)) as [I|N]; [exact I|].
  apply get_none_not_in in N. congruence.
Qed.

Lemma in_keys_delete {V : Type} k k' (m : JsMap.t V) :
  In k (JsMap.keys (JsMap.delete k' m)) -> In k (JsMap.keys m).
Proof. rewrite keys_delete. intros I. now apply filter_In in I. Qed.

Lemma in_keys_set {V : Type} k k' (v : V) (m : JsMap.t V) :
  In k (JsMap.keys (JsMap.set k' v m)) -> k = k' \/ In k (JsMap.keys m).
Proof.
  destruct (JsMap.get k' m) eqn:G.
  - rewrite keys_set_present by congruence. now right.
  - rewrite keys_set_absent by exact G. intros I. apply in_app_or in I.
    destruct I as [I|[<-|[]]]; auto.
Qed.

Lemma get_cache_cases now key s :
  cache (snd (get now key s)) = cache s
  \/ cache (snd (get now key s)) = JsMap.delete key (cache s).
Proof.
  unfold get. destruct (JsMap.get key (cache s)) as [e|]; [|now left].
  destruct (expired now e); [now right | now left].
Qed.

Lemma exists_cache_cases now key s :
  cache (snd (exists_ now key s)) = cache s
  \/ cache (snd (exists_ now key s)) = JsMap.delete key (cache s).
Proof.
  unfold exists_. destruct (JsMap.get key (cache s)) as [e|]; [|now left].
  destruct (expired now e); [now right | now left].
Qed.

Lemma enforce_cases key s :
  enforce_max_size key s = cache s
  \/ exists oldest, enforce_max_size key s = JsMap.delete oldest (cache s).
Proof.
  unfold enforce_max_size. destruct (_ && _); [|now left].
  destruct (JsMap.first_key (cache s)) as [fk|]; [|now left].
  destruct (Js.truthy_string fk); [right; now exists fk | now left].
Qed.

Lemma maxSize_apply_op op s : maxSize (apply_op op s) = maxSize s.
Proof.
  destruct op; cbn [apply_op]; try reflexivity.
  - unfold get. destruct (JsMap.get key (cache s)) as [e|]; [|reflexivity].
    now destruct (expired now e).
  - unfold exists_. destruct (JsMap.get key (cache s)) as [e|]; [|reflexivity].
    now destruct (expired now e).
  - unfold del. now destruct (JsMap.has key (cache s)).
  - revert s. induction keys as [|k r IH]; intros s; [reflexivity|].
    rewrite delMultiple_step. cbn [snd]. rewrite IH.
    unfold del. now destruct (JsMap.has k (cache s)).
  - unfold expire. now destruct (JsMap.get key (cache s)).
Qed.

Lemma delMultiple_cache_le keys : forall s,
  (JsMap.size (cache (snd (delMultiple keys s))) <= JsMap.size (cache s))%nat
  /\ forall k, In k (JsMap.keys (cache (snd (delMultiple keys s)))) ->
               In k (JsMap.keys (cache s)).
Proof.
  induction keys as [|key rest IH]; intros s; [split; auto|].
  rewrite delMultiple_step. cbn [snd].
  destruct (IH (snd (del key s))) as [L I]. rewrite del_cache in L, I. split.
  - pose proof (size_delete_le key (cache s)). lia.
  - intros k H. apply (in_keys_delete k key). now apply I.
Qed.

Lemma keys_apply_op op s k :
  In k (JsMap.keys (cache (apply_op op s))) ->
  In k (JsMap.keys (cache s))
  \/ exists now v ttl, op = OpSet now k v ttl.
Proof.
  destruct op; cbn [apply_op].
  - unfold MemoryCacheService.set. cbn [cache with_cache]. intros I.
    apply in_keys_set in I. destruct I as [->|I]; [right; eauto|].
    left. destruct (enforce_cases key s) as [E|[o E]]; rewrite E in I; auto.
    now apply in_keys_delete in I.
  - destruct (get_cache_cases now key s) as [E|E]; rewrite E; auto.
    intros I. left. now apply in_keys_delete in I.
  - destruct (exists_cache_cases now key s) as [E|E]; rewrite E; auto.
    intros I. left. now apply in_keys_delete in I.
  - rewrite del_cache. intros I. left. now apply in_keys_delete in I.
  - intros I. left. now apply (proj2 (delMultiple_cache_le keys s)).
  - unfold expire. destruct (JsMap.get key (cache s)) as [e|] eqn:G; auto.
    cbn [snd cache with_cache]. intros I. apply in_keys_set in I.
    destruct I as [->|I]; left; auto. now apply (get_some_in key (cache s) e).
  - unfold cleanupExpired. cbn [cache with_cache]. unfold JsMap.keys. intros I.
    left. apply in_map_iff in I. destruct I as (kv & E & I).
    apply filter_In in I. apply in_map_iff. exists kv. tauto.
Qed.

Lemma unique_keys_apply_op op s : unique_keys s -> unique_keys (apply_op op s).
Proof.
  unfold unique_keys. intros U. destruct op; cbn [apply_op].
  - unfold MemoryCacheService.set. cbn [cache with_cache]. apply NoDup_keys_set.
    destruct (enforce_cases key s) as [E|[o E]]; rewrite E; auto.
    now apply NoDup_keys_delete.
  - destruct (get_cache_cases now key s) as [E|E]; rewrite E; auto.
    now apply NoDup_keys_delete.
  - destruct (exists_cache_cases now key s) as [E|E]; rewrite E; auto.
    now apply NoDup_keys_delete.
  - now apply unique_keys_del.
  - now apply unique_keys_delMultiple.
  - unfold expire. destruct (JsMap.get key (cache s)); auto.
    cbn [snd cache with_cache]. now apply NoDup_keys_set.
  - unfold cleanupExpired. cbn [cache with_cache]. now apply keys_filter_NoDup.
Qed.

Lemma first_key_in {V : Type} (m : JsMap.t V) k :
  JsMap.first_key m = Some k -> In k (JsMap.keys m).
Proof. destruct m as [|[k' v] r]; [discriminate|]. intros [= ->]. now left. Qed.

Lemma size_apply_op op s :
  sets_named_key op -> (0 < maxSize s)%nat -> no_empty_key s ->
  (JsMap.size (cache s) <= maxSize s)%nat ->
  (JsMap.size (cache (apply_op op s)) <= maxSize s)%nat.
Proof.
  intros Nm M E B. destruct op; cbn [apply_op].
  - apply set_within_capacity; auto. intros k F. apply first_key_in in F.
    destruct k; [contradiction|reflexivity].
  - destruct (get_cache_cases now key s) as [C|C]; rewrite C; auto.
    pose proof (size_delete_le key (cache s)). lia.
  - destruct (exists_cache_cases now key s) as [C|C]; rewrite C; auto.
    pose proof (size_delete_le key (cache s)). lia.
  - rewrite del_cache. pose proof (size_delete_le key (cache s)). lia.
  - pose proof (proj1 (delMultiple_cache_le keys s)). lia.
  - unfold expire. destruct (JsMap.get key (cache s)) as [e|] eqn:G; auto.
    cbn [snd cache with_cache]. rewrite size_set_present; [exact B|congruence].
  - unfold cleanupExpired. cbn [cache with_cache].
    pose proof (filter_length_le (fun kv => negb (expired now (snd kv))) (cache s)).
    unfold JsMap.size in *. lia.
Qed.

(** X7.  Without [incr] and [decr], and as long as nothing is stored under
    the empty key, the store stays within [maxSize]: whatever the run of
    [set], [get], [exists], [del], [delMultiple], [expire] and sweeps, the
    map never holds more than [maxSize] entries, and its keys stay
    distinct. *)
Theorem capacity_kept (ops : list StoreOp) (s : MemoryCacheService.t) :
  Forall sets_named_key ops ->
  (0 < maxSize s)%nat -> (JsMap.size (cache s) <= maxSize s)%nat ->
  unique_keys s -> no_empty_key s ->
  (JsMap.size (cache (run_store ops s)) <= maxSize s)%nat
  /\ maxSize (run_store ops s) = maxSize s
  /\ unique_keys (run_store ops s)
  /\ no_empty_key (run_store ops s).
Proof.
  intros F. revert s. induction F as [|op ops Nm _ IH]; intros s M B U E.
  - cbn. auto.
  - change (run_store (op :: ops) s) with (run_store ops (apply_op op s)).
    pose proof (maxSize_apply_op op s) as Ms.
    destruct (IH (apply_op op s)) as (B' & M' & U' & E').
    + now rewrite Ms.
    + rewrite Ms. now apply size_apply_op.
    + now apply unique_keys_apply_op.
    + intros I. apply keys_apply_op in I. destruct I as [I|(now & v & ttl & ->)].
      * contradiction.
      * now apply Nm.
    + rewrite Ms in B', M'. auto.
Qed.

Lemma capacity_kept_witness :
  let ops := [OpSet 1 "a" "1" None; OpSet 2 "b" "2" (Some 1);
              OpSet 3 "c" "3" None; OpGet 5000 "b"; OpExpire 5000 "c" 10;
              OpSet 6 "d" "4" None; OpCleanup 7000] in
  (JsMap.size (cache (run_store ops Samples.small)) <= 2)%nat
  /\ JsMap.keys (cache (run_store ops Samples.small)) = ["c"%string; "d"%string].
Proof.
  cbv zeta. split; [|reflexivity].
  refine (proj1 (capacity_kept _ Samples.small _ _ _ _ _)).
  - repeat constructor; discriminate.
  - cbn. lia.
  - cbn. lia.
  - constructor.
  - intros [].
Defined.

End StoreCapacity.

(* ================================================================== *)
(** * Further properties of the rate limiter *)

Section RateLimitWindow.
Import MemoryCacheService RateLimitGuard.

Lemma serve_cons limits key t_get t_op rest (s : MemoryCacheService.t) :
  serve limits key ((t_get, t_op) :: rest) s
  = (let r := check t_get t_op limits key s in
     (fst r :: fst (serve limits key rest (snd r)),
      snd (serve limits key rest (snd r)))).
Proof.
  cbn [serve]. destruct (check t_get t_op limits key s) as [[r h] s1].
  cbn [fst snd]. now destruct (serve limits key rest s1).
Qed.

(** Requests of a window that stands at [n]: they are admitted until the
    count reaches [max], and rejected from then on. *)
Lemma serve_within limits key closes clock : forall n (s : MemoryCacheService.t),
  counting key closes n s -> 0 < n <= max limits ->
  Forall (fun p => fst p <= closes /\ snd p <= closes) clock ->
  List.map (fun r => is_admitted (fst r)) (fst (serve limits key clock s))
  = repeat true (Nat.min (List.length clock) (Z.to_nat (max limits - n)))
    ++ repeat false (List.length clock - Z.to_nat (max limits - n))
  /\ counting key closes (Z.min (n + Z.of_nat (List.length clock)) (max limits))
       (snd (serve limits key clock s)).
Proof.
  induction clock as [|[t_get t_op] rest IH]; intros n s C N F.
  - cbn. split; [reflexivity|]. now replace (Z.min (n + 0) (max limits)) with n by lia.
  - inversion F as [|? ? [G Hop] F']; subst. cbn [fst snd] in G, Hop.
    rewrite serve_cons. cbv zeta. cbn [fst snd List.length].
    destruct (Z_lt_le_dec n (max limits)) as [L|L].
    + destruct (check_counts t_get t_op limits key closes n s C ltac:(lia) G Hop)
        as (s' & E & C').
      rewrite E. cbn [fst snd List.map is_admitted].
      destruct (IH (n + 1) s' C' ltac:(lia) F') as [R K]. rewrite R. split.
      * replace (Z.to_nat (max limits - n))
          with (S (Z.to_nat (max limits - (n + 1)))) by lia.
        reflexivity.
      * replace (Z.min (n + Z.of_nat (S (List.length rest))) (max limits))
          with (Z.min (n + 1 + Z.of_nat (List.length rest)) (max limits)) by lia.
        exact K.
    + rewrite (check_rejects t_get t_op limits key closes n s C L G).
      cbn [fst snd List.map is_admitted rejection on_error].
      destruct (IH n s C N F') as [R K]. rewrite R.
      replace (Z.to_nat (max limits - n)) with O by lia. split.
      * rewrite !Nat.min_0_r, !Nat.sub_0_r. reflexivity.
      * replace (Z.min (n + Z.of_nat (S (List.length rest))) (max limits))
          with (Z.min (n + Z.of_nat (List.length rest)) (max limits)) by lia.
        exact K.
Qed.

(** The decisions of the guard within one window. *)
Lemma first_max_admitted (limits : RateLimit) (key : string)
  (s0 : MemoryCacheService.t) (t1 t1' : Z) (rest : list (Z * Z)) :
  0 < max limits -> window limits <> 0 -> unreadable t1 key s0 ->
  let closes := t1' + window limits * 1000 in
  Forall (fun p => fst p <= closes /\ snd p <= closes) rest ->
  let n := S (List.length rest) in
  List.map (fun r => is_admitted (fst r))
    (fst (serve limits key ((t1, t1') :: rest) s0))
  = repeat true (Nat.min n (Z.to_nat (max limits)))
    ++ repeat false (n - Z.to_nat (max limits))
  /\ counting key closes (Z.min (Z.of_nat n) (max limits))
       (snd (serve limits key ((t1, t1') :: rest) s0)).
Proof.
  intros M W U closes F n.
  destruct (check_opens t1 t1' limits key s0 U M W) as (s1 & E & C).
  rewrite serve_cons. cbv zeta. rewrite E. cbn [fst snd List.map is_admitted].
  destruct (serve_within limits key closes rest 1 s1 C ltac:(lia) F) as [R K].
  rewrite R. unfold n. split.
  - replace (Z.to_nat (max limits)) with (S (Z.to_nat (max limits - 1))) by lia.
    reflexivity.
  - replace (Z.min (Z.of_nat (S (List.length rest))) (max limits))
      with (Z.min (1 + Z.of_nat (List.length rest)) (max limits)) by lia.
    exact K.
Qed.

(** X8.  Fixed window, any policy with [max >= 1] and a window that is not
    0: of the requests on one counter key that start on no readable counter
    and fall before the window opened by the first one closes, exactly the
    first [max] are admitted and all later ones rejected, and the counter
    ends at the number of admitted requests. *)
Theorem window_admits_max (limits : RateLimit) (key : string)
  (s0 : MemoryCacheService.t) (t1 t1' : Z) (rest : list (Z * Z)) :
  0 < max limits -> window limits <> 0 -> unreadable t1 key s0 ->
  let closes := t1' + window limits * 1000 in
  Forall (fun p => fst p <= closes /\ snd p <= closes) rest ->
  let n := S (List.length rest) in
  List.map (fun r => is_admitted (fst r))
    (fst (serve limits key ((t1, t1') :: rest) s0))
  = repeat true (Nat.min n (Z.to_nat (max limits)))
    ++ repeat false (n - Z.to_nat (max limits))
  /\ counting key closes (Z.min (Z.of_nat n) (max limits))
       (snd (serve limits key ((t1, t1') :: rest) s0)).
Proof. exact (first_max_admitted limits key s0 t1 t1' rest). Qed.

Lemma window_admits_max_witness :
  List.map (fun r => is_admitted (fst r))
    (fst (serve (mkLimit 3 3600) "rate_limit:u1:/auth/reset"
            [(0, 0); (10, 10); (20, 25); (30, 30); (3600000, 3600000)] create))
  = [true; true; true; false; false].
Proof.
  refine (proj1 (window_admits_max (mkLimit 3 3600) "rate_limit:u1:/auth/reset"
                   create 0 0 [(10, 10); (20, 25); (30, 30); (3600000, 3600000)]
                   _ _ _ _)).
  - cbn. lia.
  - cbn. lia.
  - exact I.
  - repeat constructor; cbn; lia.
Defined.

End RateLimitWindow.

Section RateLimitFailOpen.
Import RateLimitGuard.

Lemma on_error_plain (r : Result unit) :
  plain r -> match r with Ok _ => True | Err e => on_error e = Ok true end.
Proof. destruct r as [|[m|b st]]; cbn; tauto. Qed.

(** X9.  The guard fails open over any backend whose failures are not
    [HttpException]s: when the lookup throws the request is admitted and no
    header is set; when the lookup returns, the request is rejected only if
    the count it read is at or over [max], and admitted otherwise, even if
    the write that follows throws; and a rejection whose TTL lookup throws
    carries [retryAfter = window]. *)
Theorem guard_fails_open (S : Type) (backend : CacheBackend S)
  (t_get t_op : Z) (limits : RateLimit) (key : string) (s : S) :
  throws_plain_errors S backend ->
  match backend_get t_get key s with
  | (Err _, s1) => check t_get t_op limits key s = (Ok true, None, s1)
  | (Ok current, s1) =>
      if over_limit (count_of current) limits
      then fst (fst (check t_get t_op limits key s))
           = Err (rejection limits (window limits - fst (getTTL t_op key s1)))
           /\ (forall e s2, backend_ttl t_op key s1 = (Err e, s2) ->
                            fst (getTTL t_op key s1) = 0)
      else fst (fst (check t_get t_op limits key s)) = Ok true
  end.
Proof.
  intros P. unfold check.
  destruct (P t_get key 0 EmptyString s) as (Pg & _ & _).
  destruct (backend_get t_get key s) as [[current|e] s1]; cbn [fst] in Pg.
  - destruct (over_limit (count_of current) limits).
    + destruct (getTTL t_op key s1) as [t s2] eqn:T. cbn [fst]. split.
      * reflexivity.
      * intros e s2' E. unfold getTTL in T. rewrite E in T. now injection T as <- _.
    + destruct (is_zero (count_of current)).
      * destruct (P t_op key (window limits) "1"%string s1) as (_ & Ps & _).
        destruct (backend_setex t_op key (window limits) "1" s1) as [[u|e] s2];
          cbn [fst] in *; [reflexivity|].
        destruct e; [reflexivity|contradiction].
      * destruct (P t_op key 0 EmptyString s1) as (_ & _ & Pi).
        destruct (backend_incr t_op key s1) as [[u|e] s2];
          cbn [fst] in *; [reflexivity|].
        destruct e; [reflexivity|contradiction].
  - destruct e; [reflexivity|contradiction].
Qed.

Lemma guard_fails_open_witness :
  check (backend := Unavailable MemoryCacheService.t (Error "down"))
    0 0 (mkLimit 5 60) "rate_limit:u1:/x" MemoryCacheService.create
  = (Ok true, None, MemoryCacheService.create).
Proof.
  refine (guard_fails_open MemoryCacheService.t
            (Unavailable MemoryCacheService.t (Error "down"))
            0 0 (mkLimit 5 60) "rate_limit:u1:/x"%string
            MemoryCacheService.create _).
  intros now key n str s. cbn. tauto.
Defined.

(** Bounds on the policies of [getRateLimit]. *)
Lemma policy_table (endpoint method : string) (userId : option string) :
  (forall isDevelopment,
     let p := getRateLimit isDevelopment endpoint method userId in
     3 <= max p <= 2000
     /\ (window p = 900 \/ window p = 3600)
     /\ window p = window (getRateLimit isDevelopment endpoint method None))
  /\ max (getRateLimit false endpoint method None)
     <= max (getRateLimit false endpoint method userId)
  /\ (includes "/auth/login" endpoint || includes "/auth/register" endpoint = true ->
      Js.truthy userId = true ->
      max (getRateLimit true endpoint method userId) = 20
      /\ max (getRateLimit true endpoint method None) = 50).
Proof.
  unfold getRateLimit. cbn [Js.truthy].
  destruct (includes "/auth/login" endpoint || includes "/auth/register" endpoint);
  destruct (includes "/auth/reset" endpoint || includes "/auth/forgot" endpoint);
  destruct (includes "/upload" endpoint
            || String.eqb method "POST" && includes "/files" endpoint);
  destruct (String.eqb method "POST" || String.eqb method "PUT"
            || String.eqb method "DELETE");
  destruct (Js.truthy userId);
  (split; [intros []; cbn; lia | split; [cbn; lia | ]]);
  try (intros; discriminate); intros _ _; cbn; split; reflexivity.
Qed.

(** X10.  The policy table.  Every policy allows at least 3 and at most
    2000 requests, in a window of 900 or 3600 seconds that does not depend
    on who asks.  In production a signed-in caller never gets a lower
    [max] than an anonymous one; in development the login and register
    endpoints give a signed-in caller 20 and an anonymous one 50. *)
Theorem rate_limit_policies (endpoint method : string) (userId : option string) :
  (forall isDevelopment,
     let p := getRateLimit isDevelopment endpoint method userId in
     3 <= max p <= 2000
     /\ (window p = 900 \/ window p = 3600)
     /\ window p = window (getRateLimit isDevelopment endpoint method None))
  /\ max (getRateLimit false endpoint method None)
     <= max (getRateLimit false endpoint method userId)
  /\ (includes "/auth/login" endpoint || includes "/auth/register" endpoint = true ->
      Js.truthy userId = true ->
      max (getRateLimit true endpoint method userId) = 20
      /\ max (getRateLimit true endpoint method None) = 50).
Proof. exact (policy_table endpoint method userId). Qed.

Lemma rate_limit_policies_witness :
  max (getRateLimit true "/api/auth/login" "POST" (Some "u1"%string)) = 20
  /\ max (getRateLimit true "/api/auth/login" "POST" None) = 50.
Proof.
  exact (proj2 (proj2 (rate_limit_policies "/api/auth/login" "POST"
                         (Some "u1"%string))) eq_refl eq_refl).
Defined.

End RateLimitFailOpen.

Section RateLimitReset.
Import MemoryCacheService RateLimitGuard.

(** X11.  A rejected request leaves the store exactly as it found it, so
    rejections neither count nor prolong the window; and the first request
    looked up after the window closed is admitted and opens a new window
    with the counter at 1. *)
Theorem window_resets (limits : RateLimit) (key : string) (closes n : Z)
  (s : MemoryCacheService.t) :
  0 < max limits -> window limits <> 0 -> closes <> 0 ->
  counting key closes n s -> max limits <= n ->
  (forall t_get t_op,
     t_get <= closes ->
     is_admitted (fst (fst (check t_get t_op limits key s))) = false
     /\ snd (check t_get t_op limits key s) = s)
  /\ (forall t_get t_op,
        closes < t_get ->
        is_admitted (fst (fst (check t_get t_op limits key s))) = true
        /\ counting key (t_op + window limits * 1000) 1
             (snd (check t_get t_op limits key s))).
Proof.
  intros M W Z0 C N. split.
  - intros t_get t_op G. rewrite (check_rejects t_get t_op limits key closes n s C N G).
    split; reflexivity.
  - intros t_get t_op G.
    assert (U : unreadable t_get key s).
    { unfold unreadable. unfold counting in C. rewrite C.
      now apply expired_after. }
    destruct (check_opens t_get t_op limits key s U M W) as (s' & E & C').
    rewrite E. split; [reflexivity | exact C'].
Qed.

Lemma window_resets_witness :
  let s := snd (serve (mkLimit 3 3600) "rate_limit:u1:/auth/reset"
                  [(0, 0); (10, 10); (20, 25)] create) in
  is_admitted (fst (fst (check 30 30 (mkLimit 3 3600) "rate_limit:u1:/auth/reset" s)))
  = false
  /\ is_admitted
       (fst (fst (check 3600001 3600001 (mkLimit 3 3600)
                    "rate_limit:u1:/auth/reset" s)))
     = true.
Proof.
  cbv zeta.
  set (s := snd (serve (mkLimit 3 3600) "rate_limit:u1:/auth/reset"
                   [(0, 0); (10, 10); (20, 25)] create)).
  assert (C : counting "rate_limit:u1:/auth/reset" 3600000 3 s) by reflexivity.
  destruct (window_resets (mkLimit 3 3600) "rate_limit:u1:/auth/reset"
              3600000 3 s) as [R A]; try (cbn; lia); [exact C|].
  split; [exact (proj1 (R 30 30 ltac:(lia))) |
          exact (proj1 (A 3600001 3600001 ltac:(lia)))].
Defined.

(** X12.  [retryAfter] is the window less what is left of it, in whole
    seconds: it is the time that has gone by since the window opened, not
    the time to wait.  Of two rejections in one window the later one
    carries the larger value, and both lie between 0 and the window. *)
Theorem retryAfter_grows (limits : RateLimit) (key : string) (opened n : Z)
  (s : MemoryCacheService.t) (t_get t_op t_get' t_op' : Z) :
  0 <= window limits ->
  let closes := opened + window limits * 1000 in
  counting key closes n s -> max limits <= n ->
  t_get <= closes -> t_get' <= closes ->
  opened <= t_op -> t_op <= t_op' ->
  exists r r',
    retry_of (fst (fst (check t_get t_op limits key s))) = Some r
    /\ retry_of (fst (fst (check t_get' t_op' limits key s))) = Some r'
    /\ 0 <= r <= r' /\ r' <= window limits
    /\ (1000 <= closes - t_op -> closes <> 0 ->
        r = window limits - (closes - t_op) / 1000).
Proof.
  intros W closes C N G G' O L.
  rewrite (check_rejects t_get t_op limits key closes n s C N G).
  rewrite (check_rejects t_get' t_op' limits key closes n s C N G').
  cbn [fst retry_of rejection on_error retryAfter].
  eexists. eexists. split; [reflexivity|]. split; [reflexivity|].
  pose proof (ttl_within key closes n (window limits) t_op s C W ltac:(lia)) as B.
  pose proof (ttl_within key closes n (window limits) t_op' s C W ltac:(lia)) as B'.
  assert (Mono : (if ttl t_op' key s >? 0 then ttl t_op' key s else 0)
                 <= (if ttl t_op key s >? 0 then ttl t_op key s else 0)).
  { unfold ttl. unfold counting in C. rewrite !C. cbn [expiresAt].
    destruct (negb (Js.truthy_num closes)); [cbn; lia|].
    assert ((closes - t_op') / 1000 <= (closes - t_op) / 1000)
      by (apply Z.div_le_mono; lia).
    destruct (Z.gtb_spec ((closes - t_op') / 1000) 0);
      destruct (Z.gtb_spec ((closes - t_op) / 1000) 0); cbv iota;
      repeat match goal with
             | |- context [?a >? 0] =>
                 destruct (Z.gtb_spec a 0)
             end; lia. }
  split; [lia|]. split; [lia|].
  intros R Z0. unfold ttl. unfold counting in C. rewrite !C. cbn [expiresAt].
  unfold Js.truthy_num. rewrite (proj2 (Z.eqb_neq closes 0) Z0). cbn [negb].
  assert (0 < (closes - t_op) / 1000) by (apply Z.div_str_pos; lia).
  rewrite (proj2 (Z.gtb_lt ((closes - t_op) / 1000) 0)) by lia. cbv iota.
  rewrite (proj2 (Z.gtb_lt ((closes - t_op) / 1000) 0)) by lia. reflexivity.
Qed.

Lemma retryAfter_grows_witness :
  let s := snd (serve (mkLimit 3 3600) "rate_limit:u1:/auth/reset"
                  [(0, 0); (10, 10); (20, 25)] create) in
  retry_of (fst (fst (check 1000 1000 (mkLimit 3 3600)
                        "rate_limit:u1:/auth/reset" s))) = Some 1
  /\ retry_of (fst (fst (check 3599000 3599000 (mkLimit 3 3600)
                           "rate_limit:u1:/auth/reset" s))) = Some 3599.
Proof.
  cbv zeta.
  set (s := snd (serve (mkLimit 3 3600) "rate_limit:u1:/auth/reset"
                   [(0, 0); (10, 10); (20, 25)] create)).
  assert (C : counting "rate_limit:u1:/auth/reset" (0 + 3600 * 1000) 3 s)
    by reflexivity.
  destruct (retryAfter_grows (mkLimit 3 3600) "rate_limit:u1:/auth/reset" 0 3 s
              1000 1000 3599000 3599000) as (r & r' & E & E' & _);
    try (cbn; lia); [exact C|].
  split; reflexivity.
Defined.

End RateLimitReset.

Section RateLimitKeys.
Import MemoryCacheService RateLimitGuard.

(** X13.  Counters do not disturb each other: a request on one counter key
    leaves every other key of the store as it was, unless the store is full
    and the request opens a new counter, in which case the oldest key of
    the store, and only that one, is lost. *)
Theorem counters_are_independent (t_get t_op : Z) (limits : RateLimit)
  (key other : string) (s : MemoryCacheService.t) :
  other <> key ->
  let after := snd (check t_get t_op limits key s) in
  (JsMap.get other (cache after) = JsMap.get other (cache s)
   \/ (JsMap.get other (cache after) = None
       /\ JsMap.first_key (cache (snd (get t_get key s))) = Some other
       /\ (maxSize s <= JsMap.size (cache (snd (get t_get key s))))%nat))
  /\ ((JsMap.size (cache s) < maxSize s)%nat ->
      JsMap.get other (cache after) = JsMap.get other (cache s)).
Proof.
  intros N after.
  assert (L : JsMap.get other (cache (snd (get t_get key s)))
              = JsMap.get other (cache s)
              /\ (JsMap.size (cache (snd (get t_get key s)))
                  <= JsMap.size (cache s))%nat
              /\ maxSize (snd (get t_get key s)) = maxSize s).
  { unfold get. destruct (JsMap.get key (cache s)) as [e|]; [|auto].
    destruct (expired t_get e); cbn [snd cache with_cache maxSize]; [|auto].
    split; [apply get_delete_other; congruence|].
    split; [apply size_delete_le | reflexivity]. }
  destruct L as (L1 & L2 & L3).
  assert (D : after = snd (get t_get key s)
              \/ after = setex t_op key (window limits) "1" (snd (get t_get key s))
              \/ after = snd (incr t_op key (snd (get t_get key s)))).
  { unfold after. rewrite check_decision. cbv zeta.
    destruct (over_limit _ limits); [now left|].
    destruct (is_zero _); cbn [snd]; auto. }
  assert (I : JsMap.get other (cache (snd (incr t_op key (snd (get t_get key s)))))
              = JsMap.get other (cache s)).
  { unfold incr. cbn [snd cache with_cache]. rewrite get_set_other by congruence.
    exact L1. }
  pose proof (frame_of_set t_op key "1" (Some (window limits))
                (snd (get t_get key s))) as (So & Ev & _).
  specialize (So other N). split.
  - destruct D as [-> | [-> | ->]]; [left; exact L1 | | left; exact I].
    unfold setex. rewrite So.
    destruct (evicted_by_set key (snd (get t_get key s))) as [oldest|] eqn:E;
      [|left; exact L1].
    destruct (String.eqb_spec oldest other) as [->|Ne]; [|left; exact L1].
    right. destruct (Ev other eq_refl) as [F B]. rewrite L3 in B. auto.
  - intros Room.
    destruct D as [-> | [-> | ->]]; [exact L1 | | exact I].
    unfold setex. rewrite So.
    replace (evicted_by_set key (snd (get t_get key s))) with (@None string);
      [exact L1|].
    unfold evicted_by_set. rewrite L3.
    replace (maxSize s <=? JsMap.size (cache (snd (get t_get key s))))%nat
      with false; [reflexivity|].
    symmetry. apply Nat.leb_gt. lia.
Qed.

Lemma counters_are_independent_witness :
  let s := snd (check 0 0 (mkLimit 5 60) "rate_limit:a:/x" create) in
  JsMap.get "rate_limit:a:/x" (cache (snd (check 1 1 (mkLimit 5 60) "rate_limit:b:/x" s)))
  = Some (mkEntry "1" 60000).
Proof.
  cbv zeta.
  set (s := snd (check 0 0 (mkLimit 5 60) "rate_limit:a:/x" create)).
  rewrite (proj2 (counters_are_independent 1 1 (mkLimit 5 60) "rate_limit:b:/x"
                    "rate_limit:a:/x" s ltac:(discriminate))).
  - reflexivity.
  - change (JsMap.size (cache s)) with 1%nat.
    change (maxSize s) with default_maxSize. unfold default_maxSize. lia.
Defined.

(** X14.  [canActivate] as a whole: whatever the environment, endpoint,
    method and caller, of the requests of one caller on one endpoint that
    start on no readable counter and fall before the window closes exactly
    the first [max] of the caller's policy are admitted.  A signed-in
    caller is counted under the user id whatever the address; an anonymous
    one under the address. *)
Theorem canActivate_admits_policy_max (isDevelopment : bool)
  (ip endpoint method : string) (userId : option string)
  (s0 : MemoryCacheService.t) (t1 t1' : Z) (rest : list (Z * Z)) :
  let limits := getRateLimit isDevelopment endpoint method userId in
  let key := rate_key userId ip endpoint in
  unreadable t1 key s0 ->
  Forall (fun p => fst p <= t1' + window limits * 1000
                   /\ snd p <= t1' + window limits * 1000) rest ->
  canActivate isDevelopment t1 t1' ip endpoint method userId s0
  = check t1 t1' limits key s0
  /\ List.map (fun r => is_admitted (fst r))
       (fst (serve limits key ((t1, t1') :: rest) s0))
     = repeat true (Nat.min (S (List.length rest)) (Z.to_nat (max limits)))
       ++ repeat false (S (List.length rest) - Z.to_nat (max limits))
  /\ (forall u other_ip, userId = Some u -> u <> EmptyString ->
                         key = rate_key userId other_ip endpoint)
  /\ (Js.truthy userId = false ->
      key = ("rate_limit:" ++ ip ++ ":" ++ endpoint)%string).
Proof.
  intros limits key U F.
  destruct (policy_table endpoint method userId) as (P & _).
  destruct (P isDevelopment) as (M & W & _). fold limits in M, W.
  split; [reflexivity|]. split.
  - apply (first_max_admitted limits key s0 t1 t1' rest); auto; lia.
  - split.
    + intros u other_ip -> Nu. unfold key, rate_key, identifier.
      destruct u; [contradiction|reflexivity].
    + intros T. unfold key, rate_key, identifier.
      destruct userId as [[|c u]|]; [reflexivity|discriminate|reflexivity].
Qed.

Lemma canActivate_admits_policy_max_witness :
  List.map (fun r => is_admitted (fst r))
    (fst (serve (getRateLimit false "/api/auth/forgot-password" "POST" None)
            (rate_key None "10.0.0.7" "/api/auth/forgot-password")
            [(0, 0); (1, 1); (2, 2); (3, 3)] create))
  = [true; true; true; false].
Proof.
  refine (proj1 (proj2 (canActivate_admits_policy_max false "10.0.0.7"
                          "/api/auth/forgot-password" "POST" None create 0 0
                          [(1, 1); (2, 2); (3, 3)] _ _))).
  - exact I.
  - repeat constructor; cbn; lia.
Defined.

End RateLimitKeys.

(* ================================================================== *)
(** * Further properties of the facade *)

Section FacadeFailOpen.
Context {S : Type} {backend : CacheBackend S}.
Context {V : Type} {json : JSON V} {laws : JSONLaws V}.
Import CacheService.

(** X15.  [getOrSet] over any backend: when the first invocation of the
    factory returns, [getOrSet] returns and does not throw, whatever the
    backend does; and when the lookup throws, the result is the factory's,
    computed once, even if the store that follows throws as well. *)
Theorem getOrSet_fails_open (t_get t_set : Z) (key : string)
  (factory : Factory V) (options : CacheOptions) (calls : nat) (s : S) (v : V) :
  factory calls = Ok v ->
  (exists r, fst (fst (getOrSet t_get t_set key factory options calls s)) = Ok r)
  /\ (forall e s1,
        backend_get t_get (buildKey key (prefix options)) s = (Err e, s1) ->
        fst (getOrSet t_get t_set key factory options calls s)
        = (Ok v, Datatypes.S calls)
        /\ fst (CacheService.get t_get key options s) = js_null)
  /\ (forall e s1,
        backend_setex t_set (buildKey key (prefix options)) (ttl_of options)
          (if serializing options then JSON_stringify v else as_string v) s
        = (Err e, s1) ->
        CacheService.set t_set key v options s = (false, s1)).
Proof.
  intros F. split; [|split].
  - unfold getOrSet. destruct (CacheService.get t_get key options s) as [c s1].
    destruct (negb (is_null c)); [now exists c|]. rewrite F.
    destruct (CacheService.set t_set key v options s1). now exists v.
  - intros e s1 E. unfold getOrSet, CacheService.get. rewrite E.
    rewrite (proj2 (is_null_spec js_null) eq_refl). cbn [negb]. rewrite F.
    destruct (CacheService.set t_set key v options s1). split; reflexivity.
  - intros e s1 E. unfold CacheService.set. now rewrite E.
Qed.

End FacadeFailOpen.

Section FacadeFailOpenExample.
Import CacheService.

Lemma getOrSet_fails_open_witness :
  getOrSet (backend := Unavailable MemoryCacheService.t (Error "down"))
    0 0 "board" (Samples.constant (SInt 7)) no_options 0 MemoryCacheService.create
  = (Ok (SInt 7), 1%nat, MemoryCacheService.create).
Proof.
  pose proof (getOrSet_fails_open
                (backend := Unavailable MemoryCacheService.t (Error "down"))
                0 0 "board" (Samples.constant (SInt 7)) no_options 0
                MemoryCacheService.create (SInt 7) eq_refl) as (_ & A & _).
  destruct (A (Error "down") MemoryCacheService.create eq_refl) as [E _].
  reflexivity.
Defined.

End FacadeFailOpenExample.

(* ================================================================== *)
(** * Properties of [keys] and of the deletion by pattern *)

Section PatternFacts.
Import Pattern.

Lemma patternToRegex_plain p :
  plain_pattern p = true -> patternToRegex p = Some (literal p).
Proof.
  induction p as [|c r IH]; [reflexivity|].
  cbn [plain_pattern]. intros H.
  apply andb_true_iff in H. destruct H as [H Hr].
  apply andb_true_iff in H. destruct H as [Hs Hq].
  apply negb_true_iff in Hs, Hq. specialize (IH Hr).
  cbn [patternToRegex literal]. rewrite Hq, Hs.
  destruct r as [|q1 r1]; [reflexivity|].
  cbn [plain_pattern] in Hr.
  apply andb_true_iff in Hr. destruct Hr as [Hr _].
  apply andb_true_iff in Hr. destruct Hr as [_ Hq1].
  apply negb_true_iff in Hq1. rewrite Hq1, IH. reflexivity.
Qed.

Lemma patternToRegex_plain_star p :
  plain_pattern p = true ->
  patternToRegex (p ++ "*") = Some (literal p ++ [AnyStar]).
Proof.
  induction p as [|c r IH]; [reflexivity|].
  cbn [plain_pattern]. intros H.
  apply andb_true_iff in H. destruct H as [H Hr].
  apply andb_true_iff in H. destruct H as [Hs Hq].
  apply negb_true_iff in Hs, Hq. specialize (IH Hr).
  cbn [String.append patternToRegex literal List.app]. rewrite Hq, Hs.
  destruct r as [|q1 r1].
  - reflexivity.
  - cbn [String.append] in *. cbn [plain_pattern] in Hr.
    apply andb_true_iff in Hr. destruct Hr as [Hr _].
    apply andb_true_iff in Hr. destruct Hr as [_ Hq1].
    apply negb_true_iff in Hq1. rewrite Hq1, IH. reflexivity.
Qed.

Lemma test_literal p re k :
  test (literal p ++ re) k
  = match strip_prefix p k with
    | Some k' => test re k'
    | None => false
    end.
Proof.
  revert k. induction p as [|c r IH]; intros k; [reflexivity|].
  cbn [literal List.app test strip_prefix].
  destruct k as [|d k']; [reflexivity|].
  destruct (Ascii.eqb c d); [apply IH | reflexivity].
Qed.

Lemma test_any k : test [AnyStar] k = one_line k.
Proof.
  induction k as [|c r IH]; [reflexivity|].
  cbn [one_line]. rewrite <- IH. cbn [test].
  destruct (negb (is_line_terminator c)); reflexivity.
Qed.

Lemma test_nil k : test [] k = String.eqb k EmptyString.
Proof. now destruct k. Qed.

Lemma test_literal_exact p k : test (literal p) k = String.eqb k p.
Proof.
  revert k. induction p as [|c r IH]; intros k; [now destruct k|].
  cbn [literal test]. destruct k as [|d k']; [reflexivity|].
  cbn [String.eqb]. rewrite IH, Ascii.eqb_sym.
  destruct (Ascii.eqb d c); reflexivity.
Qed.

Lemma strip_prefix_append p k : strip_prefix p (p ++ k) = Some k.
Proof. induction p; cbn; [reflexivity|]. now rewrite Ascii.eqb_refl. Qed.

Lemma strip_prefix_some p k k' : strip_prefix p k = Some k' -> k = (p ++ k')%string.
Proof.
  revert k. induction p as [|c r IH]; intros k; cbn; [congruence|].
  destruct k as [|d r']; [discriminate|].
  destruct (Ascii.eqb_spec c d) as [->|]; [|discriminate].
  intros H. now rewrite (IH _ H).
Qed.

End PatternFacts.

Section KeysFacts.
Import MemoryCacheService.

Lemma in_get_unique {V : Type} k (v : V) (m : JsMap.t V) :
  NoDup (JsMap.keys m) -> (In (k, v) m <-> JsMap.get k m = Some v).
Proof.
  unfold JsMap.keys. induction m as [|[k' v'] r IH]; cbn.
  - intros _. split; [tauto|discriminate].
  - intros N. inversion N as [|? ? Nk Nr]; subst.
    destruct (String.eqb_spec k k') as [->|Ne]; split.
    + intros [[= ->]|I]; [reflexivity|].
      exfalso. apply Nk. apply in_map_iff. now exists (k', v).
    + intros [= ->]. now left.
    + intros [[= -> ->]|I]; [contradiction|]. now apply IH.
    + intros G. right. now apply IH.
Qed.

(** X16.  [keys] with a pattern made of a prefix free of [*] and [?]
    followed by [*]: the keys that start with the prefix, go on without a
    line break and have not expired, oldest first, expired entries staying
    where they are.  A pattern without [*] and [?] selects its own key
    only, and a pattern that starts with [?] makes [keys] throw. *)
Theorem keys_by_prefix (clock : string -> Z) (p : string)
  (s : MemoryCacheService.t) :
  plain_pattern p = true ->
  MemoryCacheService_keys clock (p ++ "*") s
  = Ok (List.map fst
          (filter (fun kv =>
                     match strip_prefix p (fst kv) with
                     | Some rest => one_line rest
                     | None => false
                     end && live (clock (fst kv)) (snd kv))
                  (cache s)))
  /\ MemoryCacheService_keys clock p s
     = Ok (List.map fst
             (filter (fun kv => String.eqb (fst kv) p
                                && live (clock (fst kv)) (snd kv))
                     (cache s)))
  /\ (forall rest, exists e,
        MemoryCacheService_keys clock (String Pattern.question rest) s = Err e).
Proof.
  intros P. unfold MemoryCacheService_keys. split; [|split].
  - rewrite (patternToRegex_plain_star p P). do 2 f_equal.
    apply filter_ext. intros [k e]. cbn [fst snd]. rewrite test_literal.
    destruct (strip_prefix p k); [now rewrite test_any | reflexivity].
  - rewrite (patternToRegex_plain p P). do 2 f_equal.
    apply filter_ext. intros [k e]. cbn [fst snd].
    now rewrite test_literal_exact.
  - intros rest. cbn [Pattern.patternToRegex]. rewrite Ascii.eqb_refl. eauto.
Qed.

Lemma keys_by_prefix_witness :
  let s := MemoryCacheService.set 3 "user:9" "c" None
             (MemoryCacheService.set 2 "board:b" "b" (Some 1)
                (MemoryCacheService.set 1 "board:a" "a" None create)) in
  MemoryCacheService_keys (fun _ => 5000) "board:*" s = Ok ["board:a"%string]
  /\ JsMap.keys (cache s) = ["board:a"%string; "board:b"%string; "user:9"%string].
Proof.
  cbv zeta. split; [|reflexivity].
  exact (proj1 (keys_by_prefix (fun _ => 5000) "board:"
                  (MemoryCacheService.set 3 "user:9" "c" None
                     (MemoryCacheService.set 2 "board:b" "b" (Some 1)
                        (MemoryCacheService.set 1 "board:a" "a" None create)))
                  eq_refl)).
Defined.

End KeysFacts.

Section DelPatternFacts.
Import MemoryCacheService.

Lemma delMultiple_count keys : forall s,
  unique_keys s -> NoDup keys ->
  (forall k, In k keys -> JsMap.get k (cache s) <> None) ->
  fst (delMultiple keys s) = Z.of_nat (List.length keys).
Proof.
  induction keys as [|key rest IH]; intros s U N P; [reflexivity|].
  inversion N as [|? ? Nk Nr]; subst.
  rewrite delMultiple_step. cbn [fst List.length].
  rewrite del_count. unfold JsMap.has.
  destruct (JsMap.get key (cache s)) eqn:G; [|exfalso; now apply (P key (or_introl eq_refl))].
  rewrite IH; [lia | now apply unique_keys_del | exact Nr |].
  intros k I. rewrite del_cache, get_delete_other.
  - apply P. now right.
  - intros ->. contradiction.
Qed.

(** The keys that [delPattern] hands to [delMultiple]. *)
Lemma delPattern_unfold clock pattern options s regex :
  Pattern.patternToRegex (CacheService.buildKey pattern (prefix options))
  = Some regex ->
  let matched :=
    List.map fst
      (filter (fun kv => Pattern.test regex (fst kv)
                         && live (clock (fst kv)) (snd kv)) (cache s)) in
  CacheService_delPattern clock pattern options s
  = (Z.of_nat (List.length matched), snd (delMultiple matched s)).
Proof.
  intros R matched. unfold CacheService_delPattern, MemoryCacheService_keys.
  rewrite R. fold matched. now destruct matched.
Qed.

(** What [delPattern] removes and what it counts. *)
Lemma frame_of_delPattern (clock : string -> Z) (pattern : string)
  (options : CacheOptions) (s : MemoryCacheService.t) :
  unique_keys s ->
  let fullPattern := CacheService.buildKey pattern (prefix options) in
  let after := snd (CacheService_delPattern clock pattern options s) in
  match Pattern.patternToRegex fullPattern with
  | None => CacheService_delPattern clock pattern options s = (0, s)
  | Some regex =>
      (forall k,
         JsMap.get k (cache after)
         = match JsMap.get k (cache s) with
           | Some e => if Pattern.test regex k && live (clock k) e
                       then None else Some e
           | None => None
           end)
      /\ fst (CacheService_delPattern clock pattern options s)
         = Z.of_nat (JsMap.size (cache s)) - Z.of_nat (JsMap.size (cache after))
      /\ unique_keys after
  end.
Proof.
  intros U fullPattern after.
  destruct (Pattern.patternToRegex fullPattern) as [regex|] eqn:R.
  2:{ unfold CacheService_delPattern, MemoryCacheService_keys.
      fold fullPattern. now rewrite R. }
  pose proof (delPattern_unfold clock pattern options s regex R) as E.
  cbv zeta in E. unfold after. rewrite E. cbn [fst snd].
  set (cond := fun kv : string * CacheEntry =>
                 Pattern.test regex (fst kv) && live (clock (fst kv)) (snd kv)).
  set (matched := List.map fst (filter cond (cache s))).
  assert (In_matched : forall k, In k matched <->
                                 exists e, JsMap.get k (cache s) = Some e
                                           /\ cond (k, e) = true).
  { intros k. unfold matched. rewrite in_map_iff. split.
    - intros ([k' e] & <- & I). apply filter_In in I. destruct I as [I C].
      exists e. split; [now apply in_get_unique | exact C].
    - intros (e & G & C). exists (k, e). split; [reflexivity|].
      apply filter_In. split; [now apply in_get_unique | exact C]. }
  split; [|split].
  - intros k. rewrite delMultiple_get.
    destruct (existsb (String.eqb k) matched) eqn:X.
    + apply existsb_exists in X. destruct X as (k' & I & Ek).
      apply String.eqb_eq in Ek. subst k'. apply In_matched in I.
      destruct I as (e & G & C). rewrite G. unfold cond in C. cbn [fst snd] in C.
      now rewrite C.
    + destruct (JsMap.get k (cache s)) as [e|] eqn:G; [|reflexivity].
      destruct (Pattern.test regex k && live (clock k) e) eqn:C; [|reflexivity].
      exfalso. assert (I : In k matched) by (apply In_matched; eauto).
      assert (existsb (String.eqb k) matched = true); [|congruence].
      apply existsb_exists. exists k. split; [exact I | apply String.eqb_refl].
  - rewrite <- (delMultiple_count matched s U).
    + now apply frame_of_delMultiple.
    + apply (keys_filter_NoDup cond (cache s) U).
    + intros k I. apply In_matched in I. destruct I as (e & G & _). congruence.
  - now apply unique_keys_delMultiple.
Qed.

(** X17.  [delPattern] removes the entries whose key matches the pattern
    (under its prefix) and that have not expired when looked at, and no
    other; the number it returns is the number of entries that went.  A
    pattern that is no regular expression removes nothing and gives 0. *)
Theorem delPattern_removes_matches (clock : string -> Z) (pattern : string)
  (options : CacheOptions) (s : MemoryCacheService.t) :
  unique_keys s ->
  let fullPattern := CacheService.buildKey pattern (prefix options) in
  let after := snd (CacheService_delPattern clock pattern options s) in
  match Pattern.patternToRegex fullPattern with
  | None => CacheService_delPattern clock pattern options s = (0, s)
  | Some regex =>
      (forall k,
         JsMap.get k (cache after)
         = match JsMap.get k (cache s) with
           | Some e => if Pattern.test regex k && live (clock k) e
                       then None else Some e
           | None => None
           end)
      /\ fst (CacheService_delPattern clock pattern options s)
         = Z.of_nat (JsMap.size (cache s)) - Z.of_nat (JsMap.size (cache after))
      /\ unique_keys after
  end.
Proof. exact (frame_of_delPattern clock pattern options s). Qed.

Lemma delPattern_removes_matches_witness :
  let s := MemoryCacheService.set 3 "user:9" "c" None
             (MemoryCacheService.set 2 "board:b" "b" None
                (MemoryCacheService.set 1 "board:a" "a" None create)) in
  unique_keys s
  /\ CacheService_delPattern (fun _ => 5) "b*" (mkOptions None (Some "board") None) s
     = (1, MemoryCacheService.mk [("board:a"%string, mkEntry "a" 0);
                                   ("user:9"%string, mkEntry "c" 0)]
             default_maxSize).
Proof.
  cbv zeta.
  set (s := MemoryCacheService.set 3 "user:9" "c" None
              (MemoryCacheService.set 2 "board:b" "b" None
                 (MemoryCacheService.set 1 "board:a" "a" None create))).
  assert (U : unique_keys s).
  { unfold unique_keys. cbn. repeat constructor; cbn; intuition discriminate. }
  split; [exact U|].
  pose proof (delPattern_removes_matches (fun _ => 5) "b*"
                (mkOptions None (Some "board"%string) None) s U) as H.
  cbv zeta in H. destruct H as (_ & _ & _). reflexivity.
Defined.

End DelPatternFacts.

Section ClearCaches.
Import MemoryCacheService LeaderboardsService.

Lemma delPattern_keeps clock pattern options s :
  unique_keys s ->
  unique_keys (snd (CacheService_delPattern clock pattern options s))
  /\ forall c K, unreadable c K s ->
                 unreadable c K (snd (CacheService_delPattern clock pattern options s)).
Proof.
  intros U. pose proof (frame_of_delPattern clock pattern options s U) as H.
  cbv zeta in H.
  destruct (Pattern.patternToRegex
              (CacheService.buildKey pattern (prefix options))) as [regex|].
  - destruct H as (G & _ & U'). split; [exact U'|].
    intros c K. unfold unreadable. rewrite G.
    destruct (JsMap.get K (cache s)) as [e|]; [|auto].
    destruct (Pattern.test regex K && live (clock K) e); auto.
  - rewrite H. cbn [snd]. auto.
Qed.

Lemma delPattern_clears clock pattern options s regex K :
  unique_keys s ->
  Pattern.patternToRegex (CacheService.buildKey pattern (prefix options))
  = Some regex ->
  Pattern.test regex K = true ->
  unreadable (clock K) K (snd (CacheService_delPattern clock pattern options s)).
Proof.
  intros U R T. pose proof (frame_of_delPattern clock pattern options s U) as H.
  cbv zeta in H. rewrite R in H. destruct H as (G & _ & _).
  unfold unreadable. rewrite G.
  destruct (JsMap.get K (cache s)) as [e|]; [|exact I].
  rewrite T. cbn [andb]. rewrite live_negb_expired.
  destruct (expired (clock K) e) eqn:X; cbn [negb]; [exact X | exact I].
Qed.

Lemma clear_patterns_spec clock ps : forall first s,
  unique_keys s ->
  unique_keys (clear_patterns clock first ps s)
  /\ (forall c K, unreadable c K s ->
                  unreadable c K (clear_patterns clock first ps s))
  /\ (forall j pattern regex K,
        nth_error ps j = Some pattern ->
        (Pattern.patternToRegex
           (CacheService.buildKey pattern (prefix (under "leaderboard")))
         = Some regex ->
         Pattern.test regex K = true ->
         unreadable (clock (first + 2 * j)%nat K) K
           (clear_patterns clock first ps s))
        /\ (Pattern.patternToRegex
              (CacheService.buildKey pattern (prefix (under "user")))
            = Some regex ->
            Pattern.test regex K = true ->
            unreadable (clock (first + 2 * j + 1)%nat K) K
              (clear_patterns clock first ps s))).
Proof.
  induction ps as [|p rest IH]; intros first s U.
  - cbn [clear_patterns]. split; [exact U|]. split; [auto|].
    intros j pattern regex K N. destruct j; discriminate.
  - cbn [clear_patterns].
    set (s1 := snd (CacheService_delPattern (clock first) p (under "leaderboard") s)).
    set (s2 := snd (CacheService_delPattern (clock (S first)) p (under "user") s1)).
    destruct (delPattern_keeps (clock first) p (under "leaderboard") s U) as [U1 K1].
    fold s1 in U1, K1.
    destruct (delPattern_keeps (clock (S first)) p (under "user") s1 U1) as [U2 K2].
    fold s2 in U2, K2.
    destruct (IH (S (S first)) s2 U2) as (U3 & K3 & C3).
    split; [exact U3|]. split; [intros c K H; apply K3, K2, K1, H|].
    intros j pattern regex K N. destruct j as [|j].
    + injection N as ->. split; intros R T.
      * replace (first + 2 * 0)%nat with first by lia.
        apply K3, K2. unfold s1. now apply (delPattern_clears _ _ _ _ regex).
      * replace (first + 2 * 0 + 1)%nat with (S first) by lia.
        apply K3. unfold s2. now apply (delPattern_clears _ _ _ _ regex).
    + cbn [nth_error] in N. destruct (C3 j pattern regex K N) as [A B].
      replace (first + 2 * S j)%nat with (S (S first) + 2 * j)%nat by lia.
      replace (first + 2 * S j + 1)%nat with (S (S first) + 2 * j + 1)%nat by lia.
      split; assumption.
Qed.

Lemma covers_prefix p rest :
  plain_pattern p = true -> one_line rest = true ->
  exists regex,
    Pattern.patternToRegex (p ++ "*") = Some regex
    /\ Pattern.test regex (p ++ rest) = true.
Proof.
  intros P L. exists (literal p ++ [Pattern.AnyStar]).
  split; [now apply patternToRegex_plain_star|].
  now rewrite test_literal, strip_prefix_append, test_any.
Qed.

Lemma unreadable_reads_null {V : Type} {json : JSON V} c t key options
  (s : MemoryCacheService.t) :
  unreadable c (CacheService.buildKey key (prefix options)) s -> c <= t ->
  fst (CacheService.get t key options s) = js_null.
Proof.
  intros U L. rewrite facade_get. cbn [fst]. rewrite get_value.
  unfold unreadable in U.
  destruct (JsMap.get (CacheService.buildKey key (prefix options)) (cache s))
    as [e|]; [|reflexivity].
  now rewrite (expired_mono c t e L U).
Qed.

Lemma caches_cleared_from clock (after : MemoryCacheService.t) :
  (forall j pattern regex K,
     nth_error patterns j = Some pattern ->
     (Pattern.patternToRegex
        (CacheService.buildKey pattern (prefix (under "leaderboard")))
      = Some regex ->
      Pattern.test regex K = true ->
      unreadable (clock (0 + 2 * j)%nat K) K after)
     /\ (Pattern.patternToRegex
           (CacheService.buildKey pattern (prefix (under "user")))
         = Some regex ->
         Pattern.test regex K = true ->
         unreadable (clock (0 + 2 * j + 1)%nat K) K after)) ->
  caches_cleared clock after.
Proof.
  intros C. unfold caches_cleared. cbv zeta.
  assert (Overall : forall timeRange,
             unreadable
               (clock 0%nat (CacheService.buildKey (overall_key timeRange)
                               (prefix overall_options)))
               (CacheService.buildKey (overall_key timeRange)
                  (prefix overall_options)) after).
  { intros timeRange.
    destruct (covers_prefix "leaderboard:leaderboard:overall:"
                match timeRange with
                | Some LeaderboardsRepository.week => "week"
                | Some LeaderboardsRepository.month => "month"
                | _ => "all"
                end%string eq_refl) as (regex & R & T);
      [destruct timeRange as [[| |]|]; reflexivity|].
    replace (CacheService.buildKey (overall_key timeRange) (prefix overall_options))
      with ("leaderboard:leaderboard:overall:"
            ++ match timeRange with
               | Some LeaderboardsRepository.week => "week"
               | Some LeaderboardsRepository.month => "month"
               | _ => "all"
               end)%string
      by (destruct timeRange as [[| |]|]; reflexivity).
    exact (proj1 (C 0%nat _ regex _ eq_refl) R T). }
  split; [exact Overall|]. split; [|split; [|split; [|split; [|split]]]].
  - intros projectId L.
    destruct (covers_prefix "leaderboard:leaderboard:project:" projectId eq_refl L)
      as (regex & R & T).
    exact (proj1 (C 1%nat _ regex _ eq_refl) R T).
  - intros category L.
    destruct (covers_prefix "leaderboard:leaderboard:category:" category eq_refl L)
      as (regex & R & T).
    exact (proj1 (C 2%nat _ regex _ eq_refl) R T).
  - exact (proj1 (C 3%nat _ (literal "leaderboard:leaderboard:stats")
                    "leaderboard:leaderboard:stats"%string eq_refl)
             eq_refl eq_refl).
  - intros limit L.
    destruct (covers_prefix "leaderboard:leaderboard:top:" limit eq_refl L)
      as (regex & R & T).
    exact (proj1 (C 4%nat _ regex _ eq_refl) R T).
  - intros userId L.
    destruct (covers_prefix "user:user:rank:" userId eq_refl L)
      as (regex & R & T).
    exact (proj2 (C 5%nat _ regex _ eq_refl) R T).
  - intros V json laws timeRange t_get t_set factory calls L.
    pose proof (unreadable_reads_null _ t_get (overall_key timeRange)
                  overall_options after (Overall timeRange) L) as G.
    rewrite (getOrSet_null_invokes _ _ _ _ _ _ _ G).
    destruct (factory calls); cbn [fst snd]; lia.
Qed.

(** X18.  After [clearLeaderboardCaches] no cached leaderboard can be read:
    the keys of the overall boards, of the project and category boards, of
    the statistics, of the top lists and of the user ranks are gone from the
    store or had expired when they were looked at, so that the next
    [getOrSet] for an overall board invokes its factory. *)
Theorem clearLeaderboardCaches_clears (clock : nat -> string -> Z)
  (s : MemoryCacheService.t) :
  unique_keys s -> caches_cleared clock (clearLeaderboardCaches clock s).
Proof.
  intros U. apply caches_cleared_from.
  exact (proj2 (proj2 (clear_patterns_spec clock patterns 0 s U))).
Qed.

Lemma clearLeaderboardCaches_clears_witness :
  let s := snd (CacheService.set 0 (overall_key None) (SInt 1) overall_options
                  (snd (CacheService.set 0 (rank_key "u1") (SInt 2) rank_options
                          create))) in
  JsMap.keys (cache s)
  = ["user:user:rank:u1"%string; "leaderboard:leaderboard:overall:all"%string]
  /\ JsMap.keys (cache (clearLeaderboardCaches (fun _ _ => 10) s)) = []
  /\ unreadable 10 "leaderboard:leaderboard:overall:all"
       (clearLeaderboardCaches (fun _ _ => 10) s).
Proof.
  cbv zeta.
  set (s := snd (CacheService.set 0 (overall_key None) (SInt 1) overall_options
                   (snd (CacheService.set 0 (rank_key "u1") (SInt 2) rank_options
                           create)))).
  assert (U : unique_keys s).
  { unfold unique_keys. cbn. repeat constructor; cbn; intuition discriminate. }
  split; [reflexivity|]. split; [reflexivity|].
  exact (proj1 (clearLeaderboardCaches_clears (fun _ _ => 10) s U) None).
Defined.

End ClearCaches.

(* ================================================================== *)
(** * Further properties of the token blacklist *)

Section BlacklistRoundTrip.
Import TokenBlacklistService.

Lemma truthy_nonempty (u : string) : u <> EmptyString -> Js.truthy_string u = true.
Proof. destruct u; [contradiction|reflexivity]. Qed.

Lemma blacklistToken_entry now token userId expiresIn (s : MemoryCacheService.t) :
  fst (blacklistToken now token userId expiresIn s) = Ok tt
  /\ JsMap.get (key_of token)
       (MemoryCacheService.cache (snd (blacklistToken now token userId expiresIn s)))
     = Some (mkEntry userId (now + Z.max expiresIn 3600 * 1000)).
Proof.
  unfold blacklistToken. cbn [backend_setex Memory fst snd]. split; [reflexivity|].
  unfold MemoryCacheService.setex. rewrite get_after_set.
  unfold MemoryCacheService.expiry_of, Js.truthy_num.
  rewrite (proj2 (Z.eqb_neq (Z.max expiresIn 3600) 0)) by lia. reflexivity.
Qed.

Lemma isTokenBlacklisted_value now token (s : MemoryCacheService.t) :
  fst (isTokenBlacklisted now token s)
  = Js.truthy (fst (MemoryCacheService.get now (key_of token) s)).
Proof.
  unfold isTokenBlacklisted. cbn [backend_get Memory].
  now destruct (MemoryCacheService.get now (key_of token) s).
Qed.

(** X19.  A token blacklisted for a user with a non-empty id reads as
    blacklisted for [max(expiresIn, 3600)] seconds, that is for an hour at
    least even if the token had already expired, and not after that. *)
Theorem blacklist_round_trip (now later : Z) (token userId : string)
  (expiresIn : Z) (s : MemoryCacheService.t) :
  userId <> EmptyString -> 0 <= now ->
  let revoked := snd (blacklistToken now token userId expiresIn s) in
  let seconds := Z.max expiresIn 3600 in
  3600 <= seconds
  /\ (later <= now + seconds * 1000 ->
      fst (isTokenBlacklisted later token revoked) = true)
  /\ (now + seconds * 1000 < later ->
      fst (isTokenBlacklisted later token revoked) = false).
Proof.
  intros N Hn revoked seconds.
  destruct (blacklistToken_entry now token userId expiresIn s) as [_ E].
  fold revoked in E. fold seconds in E.
  split; [unfold seconds; lia|]. split; intros L.
  - rewrite isTokenBlacklisted_value, get_value, E.
    rewrite not_expired_until by exact L. cbn [value Js.truthy].
    now apply truthy_nonempty.
  - rewrite isTokenBlacklisted_value, get_value, E.
    rewrite expired_after; [reflexivity | unfold seconds; lia | exact L].
Qed.

Lemma blacklist_round_trip_witness :
  let revoked := snd (blacklistToken 1000 "tok" "u1" (-50) MemoryCacheService.create) in
  fst (isTokenBlacklisted 3601000 "tok" revoked) = true
  /\ fst (isTokenBlacklisted 3601001 "tok" revoked) = false.
Proof.
  cbv zeta.
  destruct (blacklist_round_trip 1000 3601000 "tok" "u1" (-50)
              MemoryCacheService.create ltac:(discriminate) ltac:(lia))
    as (_ & A & _).
  destruct (blacklist_round_trip 1000 3601001 "tok" "u1" (-50)
              MemoryCacheService.create ltac:(discriminate) ltac:(lia))
    as (_ & _ & B).
  split; [apply A | apply B]; cbn; lia.
Defined.

End BlacklistRoundTrip.

Section BlacklistAll.
Import MemoryCacheService TokenBlacklist.

Lemma collect_cons clock userId key rest s :
  collect clock userId (key :: rest) s
  = (match fst (get (clock key) key s) with
     | Some u => if String.eqb u userId
                 then key :: fst (collect clock userId rest (snd (get (clock key) key s)))
                 else fst (collect clock userId rest (snd (get (clock key) key s)))
     | None => fst (collect clock userId rest (snd (get (clock key) key s)))
     end,
     snd (collect clock userId rest (snd (get (clock key) key s)))).
Proof.
  cbn [collect]. destruct (get (clock key) key s) as [v s1]. cbn [fst snd].
  now destruct (collect clock userId rest s1).
Qed.

Lemma get_cache_after now key s k :
  JsMap.get k (cache (snd (get now key s)))
  = match JsMap.get k (cache s) with
    | Some e => if String.eqb k key && expired now e then None else Some e
    | None => None
    end.
Proof.
  unfold get. destruct (JsMap.get key (cache s)) as [e|] eqn:G.
  - destruct (expired now e) eqn:X; cbn [snd cache with_cache].
    + destruct (String.eqb_spec k key) as [->|N].
      * now rewrite get_delete_same, G, X.
      * rewrite get_delete_other by congruence.
        now destruct (JsMap.get k (cache s)).
    + destruct (String.eqb_spec k key) as [->|N].
      * now rewrite G, X.
      * now destruct (JsMap.get k (cache s)).
  - cbn [snd]. destruct (String.eqb_spec k key) as [->|N].
    + now rewrite G.
    + now destruct (JsMap.get k (cache s)).
Qed.

Lemma collect_spec clock userId keys : forall s,
  NoDup keys ->
  (forall k,
     JsMap.get k (cache (snd (collect clock userId keys s)))
     = match JsMap.get k (cache s) with
       | Some e => if existsb (String.eqb k) keys && expired (clock k) e
                   then None else Some e
       | None => None
       end)
  /\ (forall k,
        In k (fst (collect clock userId keys s))
        <-> In k keys
            /\ exists e, JsMap.get k (cache s) = Some e
                         /\ expired (clock k) e = false
                         /\ value e = userId).
Proof.
  induction keys as [|key rest IH]; intros s N.
  - cbn. split.
    + intros k. now destruct (JsMap.get k (cache s)).
    + intros k. tauto.
  - inversion N as [|? ? Nk Nr]; subst.
    rewrite collect_cons. cbn [fst snd].
    destruct (IH (snd (get (clock key) key s)) Nr) as [G I].
    assert (Rest : forall k, In k rest ->
                     JsMap.get k (cache (snd (get (clock key) key s)))
                     = JsMap.get k (cache s)).
    { intros k Hk. rewrite get_cache_after.
      destruct (String.eqb_spec k key) as [->|_]; [contradiction|].
      now destruct (JsMap.get k (cache s)). }
    split.
    + intros k. rewrite G, get_cache_after. cbn [existsb].
      destruct (JsMap.get k (cache s)) as [e|]; [|reflexivity].
      destruct (String.eqb_spec k key) as [->|Ne]; cbn [andb orb].
      * destruct (expired (clock key) e); [reflexivity|].
        replace (existsb (String.eqb key) rest) with false; [reflexivity|].
        symmetry. apply not_true_is_false. intros X.
        apply existsb_exists in X. destruct X as (x & Hx & Ex).
        apply String.eqb_eq in Ex. now subst x.
      * reflexivity.
    + intros k.
      assert (Tail : In k (fst (collect clock userId rest (snd (get (clock key) key s))))
                     <-> In k rest
                         /\ exists e, JsMap.get k (cache s) = Some e
                                      /\ expired (clock k) e = false
                                      /\ value e = userId).
      { rewrite I. split; intros [Hk H]; (split; [exact Hk|]);
          [rewrite <- (Rest k Hk) | rewrite (Rest k Hk)]; exact H. }
      rewrite get_value.
      destruct (JsMap.get key (cache s)) as [e|] eqn:Gk.
      * destruct (expired (clock key) e) eqn:X.
        -- rewrite Tail. split; [intros [Hk H]; split; [now right | exact H]|].
           intros [[<-|Hk] H]; [|split; assumption].
           destruct H as (e' & Ge & Xe & _). congruence.
        -- destruct (String.eqb_spec (value e) userId) as [Ev|Ev].
           ++ cbn [In]. rewrite Tail. split.
              ** intros [<-|[Hk H]]; [split; [now left | eauto] |
                                      split; [now right | exact H]].
              ** intros [[<-|Hk] H]; [now left | right; split; assumption].
           ++ rewrite Tail. split; [intros [Hk H]; split; [now right | exact H]|].
              intros [[<-|Hk] H]; [|split; assumption].
              destruct H as (e' & Ge & _ & Ve). congruence.
      * rewrite Tail. split; [intros [Hk H]; split; [now right | exact H]|].
        intros [[<-|Hk] H]; [|split; assumption].
        destruct H as (e' & Ge & _). congruence.
Qed.

Lemma blacklist_pattern :
  Pattern.patternToRegex "blacklist:*" = Some (literal "blacklist:" ++ [Pattern.AnyStar]).
Proof. reflexivity. Qed.

(** The store after [blacklistAllUserTokens], key by key. *)
Lemma blacklistAllUserTokens_get clock_keys clock_get userId s :
  unique_keys s ->
  fst (blacklistAllUserTokens clock_keys clock_get userId s) = Ok tt
  /\ forall k,
       JsMap.get k (cache (snd (blacklistAllUserTokens clock_keys clock_get userId s)))
       = match JsMap.get k (cache s) with
         | Some e =>
             if match strip_prefix "blacklist:" k with
                | Some token => one_line token
                | None => false
                end
                && live (clock_keys k) e
                && (expired (clock_get k) e || String.eqb (value e) userId)
             then None else Some e
         | None => None
         end.
Proof.
  intros U. unfold blacklistAllUserTokens, MemoryCacheService_keys.
  rewrite blacklist_pattern.
  set (cond := fun kv : string * CacheEntry =>
                 Pattern.test (literal "blacklist:" ++ [Pattern.AnyStar]) (fst kv)
                 && live (clock_keys (fst kv)) (snd kv)).
  set (keys := List.map fst (filter cond (cache s))).
  assert (Nk : NoDup keys) by apply (keys_filter_NoDup cond (cache s) U).
  assert (In_keys : forall k, In k keys <->
                              exists e, JsMap.get k (cache s) = Some e
                                        /\ cond (k, e) = true).
  { intros k. unfold keys. rewrite in_map_iff. split.
    - intros ([k' e] & <- & I). apply filter_In in I. destruct I as [I C].
      exists e. split; [now apply in_get_unique | exact C].
    - intros (e & G & C). exists (k, e). split; [reflexivity|].
      apply filter_In. split; [now apply in_get_unique | exact C]. }
  destruct (collect_spec clock_get userId keys s Nk) as [G I].
  destruct (collect clock_get userId keys s) as [userTokens s1] eqn:Ec.
  cbn [fst snd] in G, I.
  assert (St : snd (match userTokens with
                    | [] => (Ok tt, s1)
                    | _ :: _ => (Ok tt, snd (delMultiple userTokens s1))
                    end) = snd (delMultiple userTokens s1)
               /\ fst (match userTokens with
                       | [] => (Ok tt, s1)
                       | _ :: _ => (Ok tt, snd (delMultiple userTokens s1))
                       end) = Ok tt)
    by (destruct userTokens; split; reflexivity).
  destruct St as [St Rt]. rewrite St, Rt. split; [reflexivity|].
  intros k. rewrite delMultiple_get, G.
  assert (Ex : forall l, existsb (String.eqb k) l = true <-> In k l).
  { intros l. rewrite existsb_exists. split.
    - intros (x & Hx & E). apply String.eqb_eq in E. now subst x.
    - intros H. exists k. split; [exact H | apply String.eqb_refl]. }
  destruct (JsMap.get k (cache s)) as [e|] eqn:Gk.
  2:{ destruct (existsb (String.eqb k) userTokens); reflexivity. }
  assert (Ck : existsb (String.eqb k) keys
               = match strip_prefix "blacklist:" k with
                 | Some token => one_line token
                 | None => false
                 end && live (clock_keys k) e).
  { apply eq_true_iff_eq. rewrite Ex, In_keys. unfold cond. cbn [fst snd].
    rewrite test_literal.
    replace (match strip_prefix "blacklist:" k with
             | Some k' => Pattern.test [Pattern.AnyStar] k'
             | None => false
             end)
      with (match strip_prefix "blacklist:" k with
            | Some token => one_line token
            | None => false
            end)
      by (destruct (strip_prefix "blacklist:" k); [now rewrite test_any | reflexivity]).
    split.
    - intros (e' & Ge & C). congruence.
    - intros C. eauto. }
  assert (Tk : existsb (String.eqb k) userTokens
               = existsb (String.eqb k) keys
                 && negb (expired (clock_get k) e)
                 && String.eqb (value e) userId).
  { apply eq_true_iff_eq. rewrite Ex, I, !andb_true_iff, Ex, negb_true_iff.
    rewrite String.eqb_eq. split.
    - intros (Hk & e' & Ge & X & Ve). replace e' with e in * by congruence. tauto.
    - intros ((Hk & X) & Ve). split; [exact Hk|]. eauto. }
  rewrite Tk, Ck.
  destruct (match strip_prefix "blacklist:" k with
            | Some token => one_line token
            | None => false
            end); cbn [andb]; [|reflexivity].
  destruct (live (clock_keys k) e); cbn [andb]; [|reflexivity].
  destruct (expired (clock_get k) e); cbn [andb orb negb]; [reflexivity|].
  now destruct (String.eqb (value e) userId).
Qed.

End BlacklistAll.

Section BlacklistAllFacts.
Import MemoryCacheService TokenBlacklist.
Import TokenBlacklistService.

(** X20.  [blacklistAllUserTokens] revokes nothing: it deletes the entries
    under [blacklist:] that hold the user's id.  A token of the user that was
    blacklisted (and has no line break) reads as not blacklisted afterwards,
    and the tokens of the other users read as they did before. *)
Theorem blacklistAllUserTokens_lifts_revocations
  (clock_keys clock_get : string -> Z) (userId : string) (s : MemoryCacheService.t) :
  unique_keys s ->
  let after := snd (blacklistAllUserTokens clock_keys clock_get userId s) in
  fst (blacklistAllUserTokens clock_keys clock_get userId s) = Ok tt
  /\ (forall token e later,
        one_line token = true ->
        JsMap.get (key_of token) (cache s) = Some e -> value e = userId ->
        clock_keys (key_of token) <= later ->
        fst (isTokenBlacklisted later token after) = false)
  /\ (forall token e later,
        JsMap.get (key_of token) (cache s) = Some e -> value e <> userId ->
        clock_get (key_of token) <= later ->
        fst (isTokenBlacklisted later token after)
        = fst (isTokenBlacklisted later token s)).
Proof.
  intros U after.
  destruct (blacklistAllUserTokens_get clock_keys clock_get userId s U) as [R G].
  fold after in G. split; [exact R|]. split.
  - intros token e later L E V T.
    rewrite isTokenBlacklisted_value, get_value, G, E.
    unfold key_of at 1. rewrite strip_prefix_append, L, V, String.eqb_refl.
    rewrite orb_true_r, andb_true_r. cbn [andb].
    rewrite live_negb_expired.
    destruct (expired (clock_keys (key_of token)) e) eqn:X; cbn [negb]; [|reflexivity].
    now rewrite (expired_mono _ later e T X).
  - intros token e later E V T.
    rewrite !isTokenBlacklisted_value, !get_value, G, E.
    destruct (String.eqb_spec (value e) userId) as [|_]; [contradiction|].
    rewrite orb_false_r.
    destruct (expired (clock_get (key_of token)) e) eqn:X.
    + pose proof (expired_mono _ later e T X) as X'.
      destruct (_ && _); now rewrite ?X'.
    + now rewrite andb_false_r.
Qed.

Lemma blacklistAllUserTokens_lifts_revocations_witness :
  let s := snd (blacklistToken 2000 "tok2" "u2" 0
                  (snd (blacklistToken 1000 "tok" "u1" 0 MemoryCacheService.create))) in
  let after := snd (blacklistAllUserTokens (fun _ => 3000) (fun _ => 3000) "u1" s) in
  fst (isTokenBlacklisted 4000 "tok" s) = true
  /\ fst (isTokenBlacklisted 4000 "tok" after) = false
  /\ fst (isTokenBlacklisted 4000 "tok2" after) = true.
Proof.
  cbv zeta.
  set (s := snd (blacklistToken 2000 "tok2" "u2" 0
                   (snd (blacklistToken 1000 "tok" "u1" 0 MemoryCacheService.create)))).
  assert (U : unique_keys s).
  { unfold unique_keys. cbn. repeat constructor; cbn; intuition discriminate. }
  destruct (blacklistAllUserTokens_lifts_revocations
              (fun _ => 3000) (fun _ => 3000) "u1" s U) as (_ & A & B).
  split; [reflexivity|]. split.
  - apply (A "tok" (mkEntry "u1" 3601000) 4000); [reflexivity..|lia].
  - rewrite (B "tok2" (mkEntry "u2" 3602000) 4000);
      [reflexivity | reflexivity | cbn; discriminate | lia].
Defined.

End BlacklistAllFacts.

(* ================================================================== *)
(** * Properties of [logout] and of [validate] *)

Section LogoutValidate.
Import TokenBlacklist TokenBlacklistService.














End LogoutValidate.

(* ================================================================== *)
(** * Properties of the board queries *)

Section BoardRows.
Import LeaderboardsRepository RepositoryQueries.

Lemma flat_map_flat_map {A B C : Type} (f : A -> list B) (g : B -> list C) l :
  flat_map g (flat_map f l) = flat_map (fun x => flat_map g (f x)) l.
Proof.
  induction l as [|a l IH]; cbn; [reflexivity|].
  now rewrite flat_map_app, IH.
Qed.

(** At most one row has a given key when the keys are unique. *)
Lemma filter_unique_key {A : Type} (f : A -> string) (P : A -> bool) k l :
  NoDup (List.map f l) -> (forall x, P x = true -> f x = k) ->
  filter P l = [] \/ exists x, filter P l = [x].
Proof.
  intros N K. induction l as [|a r IH]; cbn; [now left|].
  inversion N as [|? ? Na Nr]; subst.
  destruct (P a) eqn:Pa.
  - right. exists a. f_equal.
    assert (E : forall x, In x r -> P x = false).
    { intros x Hx. destruct (P x) eqn:Px; [|reflexivity].
      exfalso. apply Na. rewrite (K a Pa), <- (K x Px). now apply in_map. }
    clear -E. induction r as [|b r IH]; cbn; [reflexivity|].
    rewrite (E b (or_introl eq_refl)). apply IH. intros x Hx. apply E. now right.
  - exact (IH Nr).
Qed.

Lemma left_join_rows {A B : Type} (cond : A -> B -> bool) right a :
  left_join cond right a
  = match filter (cond a) right with
    | [] => [(a, None)]
    | b :: m => List.map (fun b => (a, Some b)) (b :: m)
    end.
Proof. unfold left_join. now destruct (filter (cond a) right). Qed.

Lemma left_join_left {A B : Type} (cond : A -> B -> bool) right a :
  left_join cond right a <> []
  /\ Forall (fun r => fst r = a) (left_join cond right a).
Proof.
  rewrite left_join_rows. destruct (filter (cond a) right) as [|b m].
  - split; [discriminate | repeat constructor].
  - split; [discriminate|]. apply Forall_forall. intros r Hr.
    apply in_map_iff in Hr. now destruct Hr as (x & <- & _).
Qed.

Lemma user_rows_user cond db u :
  user_rows cond db u <> []
  /\ Forall (fun r : Joined => fst (fst r) = u) (user_rows cond db u).
Proof.
  unfold user_rows.
  destruct (left_join_left cond (table_Submission db) u) as [Ne F].
  split.
  - destruct (left_join cond (table_Submission db) u) as [|us r]; [contradiction|].
    cbn [flat_map].
    destruct (left_join_left on_badge (table_Badge db) us) as [Ne' _].
    destruct (left_join on_badge (table_Badge db) us); [contradiction | discriminate].
  - apply Forall_forall. intros r Hr. apply in_flat_map in Hr.
    destruct Hr as (us & Hus & Hr).
    rewrite Forall_forall in F. rewrite <- (F us Hus).
    destruct (left_join_left on_badge (table_Badge db) us) as [_ F'].
    rewrite Forall_forall in F'. now rewrite (F' r Hr).
Qed.

Lemma filter_all {A : Type} (P : A -> bool) l :
  Forall (fun x => P x = true) l -> filter P l = l.
Proof. induction 1 as [|a l Pa _ IH]; cbn; [reflexivity|]. now rewrite Pa, IH. Qed.

Lemma filter_none {A : Type} (P : A -> bool) l :
  Forall (fun x => P x = false) l -> filter P l = [].
Proof. induction 1 as [|a l Pa _ IH]; cbn; [reflexivity|]. now rewrite Pa, IH. Qed.

(** The joins give the rows of the active users, user after user. *)
Lemma rows_with_users cond db :
  rows_with cond db
  = flat_map (user_rows cond db) (filter is_active (table_User db)).
Proof.
  unfold rows_with. rewrite flat_map_flat_map. fold (user_rows cond db).
  induction (table_User db) as [|u us IH]; cbn [flat_map filter]; [reflexivity|].
  rewrite filter_app, IH.
  destruct (user_rows_user cond db u) as [_ F].
  destruct (is_active u) eqn:Au; cbn [flat_map].
  - rewrite filter_all; [reflexivity|]. eapply Forall_impl; [|exact F].
    intros r ->. exact Au.
  - rewrite filter_none; [reflexivity|]. eapply Forall_impl; [|exact F].
    intros r ->. exact Au.
Qed.

Lemma same_group_refl u : same_group u u = true.
Proof.
  unfold same_group. rewrite !String.eqb_refl. cbn.
  destruct (u_avatarUrl u); cbn; [apply String.eqb_refl | reflexivity].
Qed.

Lemma same_group_id u v : u_id u <> u_id v -> same_group u v = false.
Proof.
  intros N. unfold same_group.
  now rewrite (proj2 (String.eqb_neq _ _) N).
Qed.

(** The rows of one user, ahead of groups of other users, make one group. *)
Lemma group_by_block u (l rest : list Joined) :
  l <> [] -> Forall (fun r => fst (fst r) = u) l ->
  Forall (fun g => same_group u (fst g) = false) (group_by rest) ->
  group_by (l ++ rest) = (u, l) :: group_by rest.
Proof.
  intros Ne F G. induction F as [|r l Hr F IH]; [contradiction|].
  cbn [app group_by]. rewrite Hr.
  destruct l as [|r' l'].
  - cbn [app]. rewrite filter_none by exact G.
    rewrite filter_all; [reflexivity|].
    eapply Forall_impl; [|exact G]. intros g ->. reflexivity.
  - rewrite IH by discriminate. cbn [filter fst snd flat_map].
    rewrite same_group_refl. cbn [negb filter flat_map snd].
    rewrite filter_none by exact G.
    rewrite filter_all;
      [|eapply Forall_impl; [|exact G]; intros g ->; reflexivity].
    cbn [flat_map snd]. now rewrite app_nil_r.
Qed.

Lemma group_by_users cond db (us : list User) :
  NoDup (List.map u_id us) ->
  group_by (flat_map (user_rows cond db) us)
  = List.map (fun u => (u, user_rows cond db u)) us.
Proof.
  induction us as [|u us IH]; intros N; cbn [flat_map List.map]; [reflexivity|].
  inversion N as [|? ? Nu Nr]; subst.
  destruct (user_rows_user cond db u) as [Ne F].
  rewrite (group_by_block u _ _ Ne F); rewrite (IH Nr); [reflexivity|].
  apply Forall_forall. intros g Hg. apply in_map_iff in Hg.
  destruct Hg as (v & <- & Hv). cbn [fst]. apply same_group_id.
  intros E. apply Nu. rewrite E. now apply in_map.
Qed.

Lemma NoDup_map_filter {A B : Type} (f : A -> B) (P : A -> bool) l :
  NoDup (List.map f l) -> NoDup (List.map f (filter P l)).
Proof.
  induction l as [|a l IH]; cbn; [auto|]. intros N.
  inversion N as [|? ? Na Nl]; subst.
  destruct (P a); cbn; [|auto]. constructor; [|auto].
  intros I. apply Na. apply in_map_iff in I. destruct I as (x & E & Hx).
  apply filter_In in Hx. rewrite <- E. apply in_map. tauto.
Qed.

(** One group for each active user, in the order of the user table. *)
Lemma groups_of_rows cond db :
  NoDup (List.map u_id (table_User db)) ->
  group_by (rows_with cond db)
  = List.map (fun u => (u, user_rows cond db u))
      (filter is_active (table_User db)).
Proof.
  intros N. rewrite rows_with_users. apply group_by_users.
  now apply NoDup_map_filter.
Qed.

End BoardRows.

Section BoardEntries.
Import LeaderboardsRepository RepositoryQueries.

Lemma insert_perm a l : Permutation (insert a l) (a :: l).
Proof.
  induction l as [|b r IH]; cbn; [reflexivity|].
  destruct (precedes a b); [reflexivity|].
  rewrite IH. apply perm_swap.
Qed.

Lemma order_by_perm l : Permutation (order_by l) l.
Proof.
  induction l as [|a l IH]; cbn; [constructor|].
  rewrite insert_perm. now constructor.
Qed.

Lemma assign_ranks_userId i l :
  List.map userId (assign_ranks i l) = List.map userId l.
Proof. revert i. induction l; intros i; cbn; [|rewrite IHl]; reflexivity. Qed.


(** The board of a query, from its groups. *)
Lemma board_of_users cond db :
  NoDup (List.map u_id (table_User db)) ->
  Permutation
    (order_by (List.map aggregate (group_by (rows_with cond db))))
    (List.map (fun u => aggregate (u, user_rows cond db u))
       (filter is_active (table_User db))).
Proof.
  intros N. rewrite order_by_perm, (groups_of_rows cond db N), map_map.
  reflexivity.
Qed.

Lemma board_userIds cond db :
  NoDup (List.map u_id (table_User db)) ->
  Permutation
    (List.map userId
       (assign_ranks 0
          (order_by (List.map aggregate (group_by (rows_with cond db))))))
    (List.map u_id (filter is_active (table_User db))).
Proof.
  intros N. rewrite assign_ranks_userId, (board_of_users cond db N), map_map.
  reflexivity.
Qed.







End BoardEntries.

Section CategoryBoard.
Import LeaderboardsRepository RepositoryQueries.

Lemma joined_rows_with db dateFilter :
  joined_rows db dateFilter = rows_with (on_submission dateFilter) db.
Proof. reflexivity. Qed.

(** With unique project ids the project join adds no row. *)
Lemma category_join_one projects category us :
  NoDup (List.map p_id projects) ->
  exists po, left_join (on_category category) projects us = [(us, po)].
Proof.
  intros N. rewrite left_join_rows.
  destruct (filter_unique_key p_id (on_category category us)
              (match snd us with Some s => s_projectId s | None => EmptyString end)
              projects N) as [E|[p E]].
  - intros p. unfold on_category. destruct (snd us) as [s|]; [|discriminate].
    intros H. apply andb_true_iff in H. destruct H as [H _].
    apply String.eqb_eq in H. now symmetry.
  - rewrite E. now exists None.
  - rewrite E. now exists (Some p).
Qed.

Lemma selected_badge_join badges us po :
  List.map selected (left_join on_category_badge badges (us, po))
  = left_join on_badge badges us.
Proof.
  destruct us as [u so]. rewrite !left_join_rows.
  change (on_category_badge (u, so, po)) with (on_badge (u, so)).
  destruct (filter (on_badge (u, so)) badges) as [|b m]; [reflexivity|].
  rewrite map_map. reflexivity.
Qed.

Lemma selected_joins badges projects category (rows : list (User * option Submission)) :
  NoDup (List.map p_id projects) ->
  List.map selected
    (flat_map (left_join on_category_badge badges)
       (flat_map (left_join (on_category category) projects) rows))
  = flat_map (left_join on_badge badges) rows.
Proof.
  intros N. induction rows as [|us rows IH]; [reflexivity|].
  change (flat_map (left_join (on_category category) projects) (us :: rows))
    with (left_join (on_category category) projects us
          ++ flat_map (left_join (on_category category) projects) rows).
  change (flat_map (left_join on_badge badges) (us :: rows))
    with (left_join on_badge badges us ++ flat_map (left_join on_badge badges) rows).
  rewrite flat_map_app, map_app. f_equal; [|exact IH].
  destruct (category_join_one projects category us N) as [po ->].
  change (flat_map (left_join on_category_badge badges) [(us, po)])
    with (left_join on_category_badge badges (us, po) ++ []).
  rewrite app_nil_r. apply selected_badge_join.
Qed.

Lemma selected_filter (l : list CategoryRow) :
  List.map selected (filter (fun r => is_active (fst (fst (fst r)))) l)
  = filter (fun r : Joined => is_active (fst (fst r))) (List.map selected l).
Proof.
  induction l as [|r l IH]; cbn [filter List.map]; [reflexivity|].
  change (is_active (fst (fst (selected r)))) with (is_active (fst (fst (fst r)))).
  destruct (is_active (fst (fst (fst r)))); cbn [List.map]; now rewrite IH.
Qed.

Lemma category_rows_selected db projects category :
  NoDup (List.map p_id projects) ->
  List.map selected (category_rows db projects category) = joined_rows db None.
Proof.
  intros N. unfold category_rows. rewrite selected_filter.
  now rewrite (selected_joins _ _ _ _ N).
Qed.

(** X25.  Each board lists every active user exactly once, with or without
    submissions, and no other user: the overall board for any time range
    and the board of any project. *)
Theorem boards_list_active_users (now : Z) (db : Database)
  (timeRange : option TimeRange) (projectId : string) :
  NoDup (List.map u_id (table_User db)) ->
  Permutation (List.map userId (calculateOverallLeaderboard now db timeRange))
    (List.map u_id (filter is_active (table_User db)))
  /\ Permutation (List.map userId (calculateProjectLeaderboard db projectId))
       (List.map u_id (filter is_active (table_User db))).
Proof.
  intros N. split.
  - exact (board_userIds (on_submission (getDateFilter now timeRange)) db N).
  - exact (board_userIds (on_project_submission projectId) db N).
Qed.

Lemma boards_list_active_users_witness :
  Permutation
    (List.map userId (calculateOverallLeaderboard 0 Samples.tie (Some week)))
    ["U1"%string; "U2"%string]
  /\ Permutation
       (List.map userId (calculateProjectLeaderboard Samples.tie "other"))
       ["U1"%string; "U2"%string].
Proof.
  apply (boards_list_active_users 0 Samples.tie (Some week) "other").
  cbn. repeat constructor; cbn; intuition discriminate.
Defined.





(** X28.  The category plays no part in the board of a category: with
    unique project ids it is the overall board of all time, whatever the
    category and the projects. *)
Theorem category_board_is_overall_board (now : Z) (db : Database)
  (projects : list Project) (category : string) :
  NoDup (List.map p_id projects) ->
  calculateCategoryLeaderboard db projects category
  = calculateOverallLeaderboard now db None.
Proof.
  intros N. unfold calculateCategoryLeaderboard, calculateOverallLeaderboard, query.
  now rewrite (category_rows_selected db projects category N).
Qed.

Lemma category_board_is_overall_board_witness :
  calculateCategoryLeaderboard Samples.tie
    [mkProject "p" "web"; mkProject "q" "crypto"] "crypto"
  = calculateOverallLeaderboard 0 Samples.tie None.
Proof.
  apply (category_board_is_overall_board 0 Samples.tie
           [mkProject "p" "web"; mkProject "q" "crypto"] "crypto").
  cbn. repeat constructor; cbn; intuition discriminate.
Defined.

End CategoryBoard.

(* ================================================================== *)
(** * Properties of [paginateResults] *)

Section Pages.
Import Paginate.
Context {A : Type}.

Lemma firstn_add (a b : nat) (l : list A) :
  firstn (a + b) l = firstn a l ++ firstn b (skipn a l).
Proof.
  revert l. induction a as [|a IH]; intros l; [reflexivity|].
  destruct l as [|x l]; cbn [Nat.add firstn skipn app].
  - now rewrite firstn_nil.
  - now rewrite IH.
Qed.

Lemma firstn_min_length (n : nat) (l : list A) :
  firstn (Nat.min n (List.length l)) l = firstn n l.
Proof.
  destruct (Nat.le_gt_cases n (List.length l)) as [H|H].
  - now rewrite Nat.min_l.
  - rewrite Nat.min_r by lia. rewrite firstn_all.
    symmetry. apply firstn_all2. lia.
Qed.

(** A page with a number and a size of 1 at least: [limit] entries after
    the [(page - 1) * limit] first ones. *)
Lemma slice_page (l : list A) (page limit : Z) :
  1 <= page -> 1 <= limit ->
  slice ((page - 1) * limit) ((page - 1) * limit + limit) l
  = firstn (Z.to_nat limit) (skipn (Z.to_nat ((page - 1) * limit)) l).
Proof.
  intros P L. unfold slice, relative_index.
  set (start := (page - 1) * limit). assert (S0 : 0 <= start) by (unfold start; nia).
  set (len := Z.of_nat (List.length l)).
  rewrite (proj2 (Z.ltb_ge start 0)) by lia.
  rewrite (proj2 (Z.ltb_ge (start + limit) 0)) by lia.
  destruct (Z.le_gt_cases len start) as [H|H].
  - rewrite (Z.min_r start len) by lia.
    rewrite !skipn_all2 by (unfold len in *; lia). now rewrite !firstn_nil.
  - rewrite (Z.min_l start len) by lia.
    rewrite <- (firstn_min_length (Z.to_nat limit)).
    f_equal. rewrite length_skipn. unfold len in *. lia.
Qed.

Lemma pages_concat (l : list A) (limit : Z) (n : nat) :
  1 <= limit ->
  flat_map (fun p => fst (paginateResults l p limit)) (pages n)
  = firstn (n * Z.to_nat limit) l.
Proof.
  intros L. unfold pages. induction n as [|n IH]; [reflexivity|].
  rewrite seq_S, map_app, flat_map_app, IH. cbn [Nat.add List.map flat_map].
  rewrite app_nil_r. unfold paginateResults. cbn [fst].
  rewrite slice_page by lia.
  replace (Z.to_nat ((Z.of_nat n + 1 - 1) * limit)) with (n * Z.to_nat limit)%nat
    by nia.
  rewrite <- firstn_add. f_equal. lia.
Qed.

(** X29.  With a page size of 1 at least the pages partition the board:
    [totalPages] is a number [n], the data of the pages 1 to [n] put end to
    end are the board, and a page from 1 on has a next page exactly when
    its number is below [n]. *)
Theorem pages_partition (leaderboard : list A) (limit : Z) :
  1 <= limit ->
  exists n : nat,
    (forall page,
       totalPages (snd (paginateResults leaderboard page limit))
       = Finite (Z.of_nat n))
    /\ flat_map (fun page => fst (paginateResults leaderboard page limit))
         (pages n)
       = leaderboard
    /\ (forall page, 1 <= page ->
          hasNext (snd (paginateResults leaderboard page limit)) = true
          <-> page < Z.of_nat n).
Proof.
  intros L. set (len := Z.of_nat (List.length leaderboard)).
  assert (C : 0 <= - ((- len) / limit)).
  { pose proof (Z.div_le_upper_bound (- len) limit 0 ltac:(lia)) as H.
    unfold len in *. lia. }
  pose proof (Z.mul_div_le (- len) limit ltac:(lia)) as Lo.
  pose proof (Z.mul_succ_div_gt (- len) limit ltac:(lia)) as Hi.
  exists (Z.to_nat (- ((- len) / limit))). rewrite Z2Nat.id by exact C.
  split; [|split].
  - intros page. unfold paginateResults, ceil_div. cbn [snd totalPages].
    now rewrite (proj2 (Z.eqb_neq limit 0)) by lia.
  - rewrite pages_concat by exact L. apply firstn_all2. unfold len in *. nia.
  - intros page P. unfold paginateResults. cbn [snd hasNext].
    fold len. rewrite Z.ltb_lt. nia.
Qed.

End Pages.

Lemma pages_partition_witness :
  exists n : nat,
    (forall page,
       Paginate.totalPages (snd (Paginate.paginateResults [1; 2; 3; 4; 5; 6; 7] page 3))
       = Paginate.Finite (Z.of_nat n))
    /\ flat_map (fun page => fst (Paginate.paginateResults [1; 2; 3; 4; 5; 6; 7] page 3))
         (Paginate.pages n)
       = [1; 2; 3; 4; 5; 6; 7]
    /\ (forall page, 1 <= page ->
          Paginate.hasNext (snd (Paginate.paginateResults [1; 2; 3; 4; 5; 6; 7] page 3)) = true
          <-> page < Z.of_nat n).
Proof.
  apply (pages_partition (A := Z) [1; 2; 3; 4; 5; 6; 7] 3). lia.
Defined.

Section PagesUnchecked.
Import Paginate.

(** X30.  [paginateResults] takes any integers.  With a negative [limit]
    the first page is the board without its last [-limit] entries; page 0
    is empty; and with a [limit] of 0 every page is empty and [totalPages]
    is not a number of pages. *)
Theorem paginate_unchecked_arguments {A : Type} (leaderboard : list A)
  (page limit : Z) :
  (limit < 0 ->
   fst (paginateResults leaderboard 1 limit)
   = firstn (List.length leaderboard - Z.to_nat (- limit)) leaderboard)
  /\ (0 <= limit -> fst (paginateResults leaderboard 0 limit) = [])
  /\ (limit = 0 ->
      fst (paginateResults leaderboard page limit) = []
      /\ totalPages (snd (paginateResults leaderboard page limit))
         = match leaderboard with [] => NaN | _ => Infinity end).
Proof.
  unfold paginateResults, slice, relative_index. cbn [fst snd totalPages].
  set (len := Z.of_nat (List.length leaderboard)).
  assert (Hl : 0 <= len) by (unfold len; lia).
  split; [|split].
  - intros L. replace ((1 - 1) * limit) with 0 by lia. cbn [Z.ltb Z.compare].
    rewrite (proj2 (Z.ltb_lt (0 + limit) 0)) by lia.
    rewrite (Z.min_l 0 len) by lia. cbn [Z.to_nat skipn]. f_equal.
    unfold len. lia.
  - intros L. replace ((0 - 1) * limit + limit) with 0 by lia.
    cbn [Z.ltb Z.compare]. rewrite (Z.min_l 0 len) by lia.
    replace (Z.to_nat (0 - _)) with 0%nat; [reflexivity|].
    destruct (Z.ltb_spec ((0 - 1) * limit) 0); lia.
  - intros ->. rewrite !Z.mul_0_r. cbn [Z.add Z.ltb Z.compare].
    rewrite Z.sub_diag. split; [reflexivity|].
    unfold ceil_div. cbn [Z.eqb]. unfold len.
    now destruct leaderboard.
Qed.

Lemma paginate_unchecked_arguments_witness :
  fst (paginateResults [1; 2; 3; 4; 5] 1 (-2)) = [1; 2; 3]
  /\ fst (paginateResults [1; 2; 3; 4; 5] 0 2) = []
  /\ totalPages (snd (paginateResults [1; 2; 3; 4; 5] 3 0)) = Infinity.
Proof.
  destruct (paginate_unchecked_arguments [1; 2; 3; 4; 5] 3 (-2)) as (A1 & _ & _).
  destruct (paginate_unchecked_arguments [1; 2; 3; 4; 5] 3 2) as (_ & A2 & _).
  destruct (paginate_unchecked_arguments [1; 2; 3; 4; 5] 3 0) as (_ & _ & A3).
  split; [|split].
  - rewrite A1 by lia. reflexivity.
  - apply A2. lia.
  - apply A3. reflexivity.
Defined.

End PagesUnchecked.
